(** * Address fetcher: two postal-code providers raced under one deadline

    A shallow embedding of [main.go].  The program builds two request URLs
    from one postal code, starts one goroutine per provider
    ([fetchAddress]), and waits in a single [select] for the first message
    on one of four unbuffered channels or for the expiry of a one-second
    context.

    What belongs to the Go standard library (the JSON decoder, the URL
    parser, the HTTP client, the scheduler) is modelled from its documented
    behaviour, only as far as the program can observe it; what belongs to
    the repository is translated statement by statement. *)

From Stdlib Require Import String Ascii List Bool NArith Arith Lia.
Import ListNotations.

Local Open Scope string_scope.
Local Open Scope list_scope.

(** ** Records of [main.go] *)

Module Address.
(** [type Address struct]: the common shape both providers are mapped to. *)
Record t : Type := Build
  { Cep : string;          (* postal code *)
    Logradouro : string;   (* street *)
    Bairro : string;       (* neighborhood *)
    Localidade : string;   (* city *)
    Uf : string }.         (* state *)

(** The zero value of the struct. *)
Definition zero : t := Build "" "" "" "" "".
End Address.

Module BrasilAPIResponse.
(** [type BrasilAPIResponse struct]. *)
Record t : Type := Build
  { Cep : string;
    State : string;
    City : string;
    Neighborhood : string;
    Street : string;
    Service : string }.

Definition zero : t := Build "" "" "" "" "" "".

(** The JSON names of the struct tags, in declaration order. *)
Definition fields : list string :=
  ["cep"; "state"; "city"; "neighborhood"; "street"; "service"].

(** Assignment to the field that carries the given tag. *)
Definition set (tag v : string) (r : t) : t :=
  if tag =? "cep" then Build v (State r) (City r) (Neighborhood r) (Street r) (Service r)
  else if tag =? "state" then Build (Cep r) v (City r) (Neighborhood r) (Street r) (Service r)
  else if tag =? "city" then Build (Cep r) (State r) v (Neighborhood r) (Street r) (Service r)
  else if tag =? "neighborhood" then Build (Cep r) (State r) (City r) v (Street r) (Service r)
  else if tag =? "street" then Build (Cep r) (State r) (City r) (Neighborhood r) v (Service r)
  else if tag =? "service" then Build (Cep r) (State r) (City r) (Neighborhood r) (Street r) v
  else r.

Definition name : string := "BrasilAPIResponse".
End BrasilAPIResponse.

Module ViaCEPResponse.
(** [type ViaCEPResponse struct]. *)
Record t : Type := Build
  { Cep : string;
    Logradouro : string;
    Complemento : string;
    Bairro : string;
    Localidade : string;
    Uf : string;
    Ibge : string;
    Gia : string;
    Ddd : string;
    Siafi : string }.

Definition zero : t := Build "" "" "" "" "" "" "" "" "" "".

Definition fields : list string :=
  ["cep"; "logradouro"; "complemento"; "bairro"; "localidade"; "uf";
   "ibge"; "gia"; "ddd"; "siafi"].

Definition set (tag v : string) (r : t) : t :=
  if tag =? "cep" then
    Build v (Logradouro r) (Complemento r) (Bairro r) (Localidade r) (Uf r)
          (Ibge r) (Gia r) (Ddd r) (Siafi r)
  else if tag =? "logradouro" then
    Build (Cep r) v (Complemento r) (Bairro r) (Localidade r) (Uf r)
          (Ibge r) (Gia r) (Ddd r) (Siafi r)
  else if tag =? "complemento" then
    Build (Cep r) (Logradouro r) v (Bairro r) (Localidade r) (Uf r)
          (Ibge r) (Gia r) (Ddd r) (Siafi r)
  else if tag =? "bairro" then
    Build (Cep r) (Logradouro r) (Complemento r) v (Localidade r) (Uf r)
          (Ibge r) (Gia r) (Ddd r) (Siafi r)
  else if tag =? "localidade" then
    Build (Cep r) (Logradouro r) (Complemento r) (Bairro r) v (Uf r)
          (Ibge r) (Gia r) (Ddd r) (Siafi r)
  else if tag =? "uf" then
    Build (Cep r) (Logradouro r) (Complemento r) (Bairro r) (Localidade r) v
          (Ibge r) (Gia r) (Ddd r) (Siafi r)
  else if tag =? "ibge" then
    Build (Cep r) (Logradouro r) (Complemento r) (Bairro r) (Localidade r) (Uf r)
          v (Gia r) (Ddd r) (Siafi r)
  else if tag =? "gia" then
    Build (Cep r) (Logradouro r) (Complemento r) (Bairro r) (Localidade r) (Uf r)
          (Ibge r) v (Ddd r) (Siafi r)
  else if tag =? "ddd" then
    Build (Cep r) (Logradouro r) (Complemento r) (Bairro r) (Localidade r) (Uf r)
          (Ibge r) (Gia r) v (Siafi r)
  else if tag =? "siafi" then
    Build (Cep r) (Logradouro r) (Complemento r) (Bairro r) (Localidade r) (Uf r)
          (Ibge r) (Gia r) (Ddd r) v
  else r.

Definition name : string := "ViaCEPResponse".
End ViaCEPResponse.

(** ** Errors

    Go's [error] values that the program can meet, each with the text that
    [%v] prints for it. *)

Inductive error : Type :=
| TransportError (msg : string)            (* whatever the HTTP round trip reports *)
| DeadlineExceeded                         (* context.DeadlineExceeded *)
| SyntaxError (msg : string)               (* the body is not a JSON value; io.EOF for an empty body *)
| UnmarshalTypeError (Value : string) (Struct : string) (Field : string).

Definition Error (e : error) : string :=
  match e with
  | TransportError msg => msg
  | DeadlineExceeded => "context deadline exceeded"
  | SyntaxError msg => msg
  | UnmarshalTypeError v s "" =>
      "json: cannot unmarshal " ++ v ++ " into Go value of type main." ++ s
  | UnmarshalTypeError v s f =>
      "json: cannot unmarshal " ++ v ++ " into Go struct field " ++ s ++ "." ++ f
        ++ " of type string"
  end.

(** ** encoding/json, as far as [Decode] into a struct of strings goes *)

(** A JSON value as the scanner of the decoder hands it over: syntactically
    valid, nested no deeper than the scanner allows (10000 levels), strings
    already unquoted.  What the scanner refuses is no [json] but a
    [NotJSON] body. *)
#[warning="-register-all"]
Inductive json : Type :=
| JNull
| JBool (b : bool)
| JNumber (literal : string)
| JString (s : string)
| JArray (elems : list json)
| JObject (members : list (string * json)).

(** What the decoder finds in a response body: nothing that its scanner
    accepts (a syntax error, nesting beyond the scanner's limit, or the end
    of input for an empty body), or a first JSON value. *)
Inductive body : Type :=
| NotJSON (e : error)
| JSONValue (j : json).

(** The word the decoder uses for a value in its type errors. *)
Definition kind (j : json) : string :=
  match j with
  | JNull => "null"
  | JBool _ => "bool"
  | JNumber _ => "number"
  | JString _ => "string"
  | JArray _ => "array"
  | JObject _ => "object"
  end.

(** Case folding of a member name: ASCII letters to upper case, and the two
    runes that fold onto ASCII letters, U+017F (bytes C5 BF) onto S and
    U+212A (bytes E2 84 AA) onto K.  Every other byte is kept, so that a
    name with any other non-ASCII rune never equals the fold of a tag. *)
Definition upper (c : ascii) : ascii :=
  let n := nat_of_ascii c in
  if (Nat.leb 97 n && Nat.leb n 122)%bool then ascii_of_nat (n - 32) else c.

Fixpoint foldName (s : string) : string :=
  match s with
  | EmptyString => EmptyString
  | String c rest =>
      match rest with
      | String d rest1 =>
          if (Ascii.eqb c "197" && Ascii.eqb d "191")%bool
          then String "S" (foldName rest1)
          else
            match rest1 with
            | String e rest2 =>
                if (Ascii.eqb c "226" && Ascii.eqb d "132" && Ascii.eqb e "170")%bool
                then String "K" (foldName rest2)
                else String (upper c) (foldName rest)
            | EmptyString => String (upper c) (foldName rest)
            end
      | EmptyString => String (upper c) EmptyString
      end
  end.

Section Unmarshal.
(** Decoding into a struct [T] all of whose fields are strings. *)
Variable T : Type.
Variable fields : list string.
Variable set : string -> string -> T -> T.
Variable zero : T.
Variable name : string.

(** The field a member name selects: an exact match of a tag first, a
    match up to case folding otherwise. *)
Definition field_of (key : string) : option string :=
  match find (String.eqb key) fields with
  | Some f => Some f
  | None => find (fun f => foldName f =? foldName key) fields
  end.

(** One member of an object: a string is stored, [null] leaves the field
    as it is, any other value is a type error; a member that selects no
    field is skipped.  The first error is the one reported, and decoding
    goes on after it. *)
Definition member (kv : string * json) (st : T * option error) : T * option error :=
  let '(r, saved) := st in
  match field_of (fst kv) with
  | None => (r, saved)
  | Some f =>
      match snd kv with
      | JString v => (set f v r, saved)
      | JNull => (r, saved)
      | other =>
          (r, match saved with
              | Some e => Some e
              | None => Some (UnmarshalTypeError (kind other) name f)
              end)
      end
  end.

Definition object (ms : list (string * json)) (st : T * option error) : T * option error :=
  fold_left (fun st kv => member kv st) ms st.

Definition value (j : json) : T * option error :=
  match j with
  | JNull => (zero, None)
  | JObject ms => object ms (zero, None)
  | other => (zero, Some (UnmarshalTypeError (kind other) name ""))
  end.

(** [json.NewDecoder(resp.Body).Decode(&v)] on a zero-valued [v]. *)
Definition Decode (b : body) : error + T :=
  match b with
  | NotJSON e => inl e
  | JSONValue j =>
      match value j with
      | (_, Some e) => inl e
      | (r, None) => inr r
      end
  end.
End Unmarshal.

Definition DecodeBrasilAPI : body -> error + BrasilAPIResponse.t :=
  Decode BrasilAPIResponse.t BrasilAPIResponse.fields BrasilAPIResponse.set
         BrasilAPIResponse.zero BrasilAPIResponse.name.

Definition DecodeViaCEP : body -> error + ViaCEPResponse.t :=
  Decode ViaCEPResponse.t ViaCEPResponse.fields ViaCEPResponse.set
         ViaCEPResponse.zero ViaCEPResponse.name.

(** ** net/url

    [url.Parse] on a URL of the shape [scheme://host/path?query#fragment]
    whose scheme and host are literals of the program: it fails when the
    part before the fragment holds an ASCII control byte, or when the path
    or the fragment holds a [%] that is not followed by two hexadecimal
    digits.  The query is not checked. *)

Definition isCTL (c : ascii) : bool :=
  let n := nat_of_ascii c in (Nat.ltb n 32 || Nat.eqb n 127)%bool.

Definition stringContainsCTLByte (s : string) : bool :=
  existsb isCTL (list_ascii_of_string s).

Definition ishex (c : ascii) : bool :=
  let n := nat_of_ascii c in
  ((Nat.leb 48 n && Nat.leb n 57) || (Nat.leb 97 n && Nat.leb n 102)
   || (Nat.leb 65 n && Nat.leb n 70))%bool.

(** The validation pass of [unescape] in the path and fragment modes. *)
Fixpoint escapes_ok (s : string) : bool :=
  match s with
  | EmptyString => true
  | String c rest =>
      if Ascii.eqb c "%" then
        match rest with
        | String h1 (String h2 rest') => (ishex h1 && ishex h2 && escapes_ok rest')%bool
        | _ => false
        end
      else escapes_ok rest
  end.

(** [strings.Cut]: the text before and after the first separator. *)
Fixpoint cut (sep : ascii) (s : string) : string * string :=
  match s with
  | EmptyString => (EmptyString, EmptyString)
  | String c rest =>
      if Ascii.eqb c sep then (EmptyString, rest)
      else let (before, after) := cut sep rest in (String c before, after)
  end.

(** A parsed URL, named by the text it was parsed from.  Its parts, and the
    text that its [String] method renders (which escapes the path), are not
    modelled: the program reads neither. *)
Record ParsedURL : Type := { source : string }.

Definition url_Parse (rawURL : string) : option ParsedURL :=
  let (u, frag) := cut "#" rawURL in
  if stringContainsCTLByte u then None
  else
    let (rest, _) := cut "?" u in
    if (escapes_ok rest && escapes_ok frag)%bool
    then Some {| source := rawURL |} else None.

(** ** context and net/http *)

(** Instants and durations count nanoseconds; a race starts at instant 0. *)
Definition Duration := N.
Definition Second : Duration := 1000000000%N.

Record Context : Type := { deadline : N }.

(** [context.WithTimeout(context.Background(), d)], called at instant [now]. *)
Definition WithTimeout (now : N) (d : Duration) : Context :=
  {| deadline := (now + d)%N |}.

Record Request : Type :=
  { Method : string; URL : ParsedURL; Ctx : Context }.

(** [http.NewRequestWithContext(ctx, method, url, nil)] with a valid method:
    the request, or [nil] when the URL does not parse. *)
Definition NewRequestWithContext (ctx : Context) (method url : string) : option Request :=
  match url_Parse url with
  | Some u => Some {| Method := method; URL := u; Ctx := ctx |}
  | None => None
  end.

Record Response : Type :=
  { StatusCode : N; Body : body }.

(** How [client.Do] ends for one request, seen from the caller: when the
    exchange is over ([None]: never), what [client.Do] then returns (an
    error, or the response it ends with, after the redirects it followed
    and with the body it lets the caller read), and the error it returns
    instead when the context of the request ends the exchange first (a
    [url.Error] around [context.DeadlineExceeded]; the library composes its
    text). *)
Record Exchange : Type :=
  { latency : option N; reply : error + Response; cancelled : error }.

(** The world outside the process, as [client.Do] shows it: one exchange
    per URL a request is built from. *)
Definition Network := string -> Exchange.

Inductive DoResult : Type :=
| NilDereference                               (* req.URL on a nil *Request *)
| Returns (t : N) (r : error + Response).

(** [client.Do(req)]: a [nil] request is dereferenced; an exchange that is
    over by the deadline of the request's context returns its reply, at
    that instant; any other is cancelled, and returns the cancellation
    error after the deadline. *)
Definition client_Do (net : Network) (req : option Request) : DoResult :=
  match req with
  | None => NilDereference
  | Some r =>
      let x := net (source (URL r)) in
      let late := Returns (N.succ (deadline (Ctx r))) (inl (cancelled x)) in
      match latency x with
      | Some t => if (t <=? deadline (Ctx r))%N then Returns t (reply x) else late
      | None => late
      end
  end.

(** ** Goroutines and channels *)

(** The four channels that [main] makes. *)
Inductive chan : Type := brasilAPIResult | brasilAPIErr | viaCEPResult | viaCEPErr.

Definition chan_eqb (a b : chan) : bool :=
  match a, b with
  | brasilAPIResult, brasilAPIResult | brasilAPIErr, brasilAPIErr
  | viaCEPResult, viaCEPResult | viaCEPErr, viaCEPErr => true
  | _, _ => false
  end.

Inductive message : Type :=
| OfAddress (a : Address.t)
| OfError (e : error).

(** A send statement that a goroutine reaches: channel, value, and the
    instant from which the sender stands blocked on the channel. *)
Record Send : Type := { on : chan; what : message; since : N }.

(** How a piece of a goroutine's body ends: it goes on with a value, it
    executes [return], or it panics. *)
Inductive Flow (A : Type) : Type :=
| Next (a : A)
| Return
| Panic.
Arguments Next {A} a.
Arguments Return {A}.
Arguments Panic {A}.

(** A goroutine body: the sends it reaches, in program order, and its end. *)
Definition Go (A : Type) : Type := (list Send * Flow A)%type.

Definition pure {A : Type} (a : A) : Go A := ([], Next a).

Definition bind {A B : Type} (m : Go A) (k : A -> Go B) : Go B :=
  match m with
  | (tr, Next a) => let (tr', f) := k a in (tr ++ tr', f)
  | (tr, Return) => (tr, Return)
  | (tr, Panic) => (tr, Panic)
  end.

Notation "x <- m ;; k" := (bind m (fun x => k))
  (at level 61, m at next level, right associativity).
Notation "m ;;; k" := (bind m (fun _ => k))
  (at level 61, right associativity).

Definition send (ch : chan) (v : message) (t : N) : Go unit :=
  ([ {| on := ch; what := v; since := t |} ], Next tt).
Definition return_ {A : Type} : Go A := ([], Return).
Definition panic {A : Type} : Go A := ([], Panic).

(** ** [fetchAddress] *)

Definition fetchAddress (ctx : Context) (net : Network) (url : string)
    (result errChan : chan) (isBrasilAPI : bool) : Go unit :=
  let req := NewRequestWithContext ctx "GET" url in
  got <- match client_Do net req with
         | NilDereference => panic
         | Returns t (inl err) => send errChan (OfError err) t ;;; return_
         | Returns t (inr resp) => pure (t, resp)
         end ;;
  let (t, resp) := got : N * Response in
  address <- (if isBrasilAPI then
                match DecodeBrasilAPI (Body resp) with
                | inl err => send errChan (OfError err) t ;;; return_
                | inr brasilAPIResponse =>
                    pure {| Address.Cep := BrasilAPIResponse.Cep brasilAPIResponse;
                            Address.Logradouro := BrasilAPIResponse.Street brasilAPIResponse;
                            Address.Bairro := BrasilAPIResponse.Neighborhood brasilAPIResponse;
                            Address.Localidade := BrasilAPIResponse.City brasilAPIResponse;
                            Address.Uf := BrasilAPIResponse.State brasilAPIResponse |}
                end
              else
                match DecodeViaCEP (Body resp) with
                | inl err => send errChan (OfError err) t ;;; return_
                | inr viaCEPResponse =>
                    pure {| Address.Cep := ViaCEPResponse.Cep viaCEPResponse;
                            Address.Logradouro := ViaCEPResponse.Logradouro viaCEPResponse;
                            Address.Bairro := ViaCEPResponse.Bairro viaCEPResponse;
                            Address.Localidade := ViaCEPResponse.Localidade viaCEPResponse;
                            Address.Uf := ViaCEPResponse.Uf viaCEPResponse |}
                end) ;;
  send result (OfAddress address) t.

(** ** [select] *)

(** A communication clause of a [select] with the text its body prints. *)
Inductive Case : Type :=
| RecvAddress (ch : chan) (k : Address.t -> string)
| RecvError (ch : chan) (k : error -> string)
| RecvDone (ctx : Context) (k : string).

(** The send a goroutine stands blocked on: the first it reaches. *)
Definition blocked (g : Go unit) : list Send :=
  match fst g with
  | s :: _ => [s]
  | [] => []
  end.

Definition offer (gs : list (Go unit)) (ch : chan) : option Send :=
  find (fun s => chan_eqb (on s) ch) (flat_map blocked gs).

(** From which instant a clause can proceed, and what it then prints.  A
    receive can proceed once a sender is blocked on its channel; the receive
    from [ctx.Done()] once the deadline has closed that channel. *)
Definition fire (gs : list (Go unit)) (c : Case) : option (N * string) :=
  match c with
  | RecvAddress ch k =>
      match offer gs ch with
      | Some {| what := OfAddress a; since := t |} => Some (t, k a)
      | _ => None
      end
  | RecvError ch k =>
      match offer gs ch with
      | Some {| what := OfError e; since := t |} => Some (t, k e)
      | _ => None
      end
  | RecvDone ctx k => Some (deadline ctx, k)
  end.

Fixpoint fires (gs : list (Go unit)) (cs : list Case) : list (N * string) :=
  match cs with
  | [] => []
  | c :: cs' =>
      match fire gs c with
      | Some ev => ev :: fires gs cs'
      | None => fires gs cs'
      end
  end.

Fixpoint earliest (evs : list (N * string)) : option N :=
  match evs with
  | [] => None
  | (t, _) :: evs' =>
      match earliest evs' with
      | Some t' => Some (N.min t t')
      | None => Some t
      end
  end.

(** A [select] entered at instant 0 blocks until the first instant at which
    a clause can proceed and runs one of the clauses that can proceed then:
    the texts it may print ([[]]: it blocks for ever). *)
Definition select (gs : list (Go unit)) (cs : list Case) : list string :=
  match earliest (fires gs cs) with
  | None => []
  | Some t0 => map snd (filter (fun ev => (fst ev =? t0)%N) (fires gs cs))
  end.

(** ** [main] *)

Definition nl : string := String (ascii_of_nat 10) EmptyString.

Inductive Outcome : Type :=
| Stdout (text : string)      (* the line printed before a normal exit *)
| RuntimePanic.               (* nil pointer dereference in a goroutine *)

Definition panics (g : Go unit) : bool :=
  match snd g with
  | Panic => true
  | _ => false
  end.

Definition defaultCep : string := "01153000".

(** [cep := "01153000"; if len(os.Args) > 1 { cep = os.Args[1] }] *)
Definition cepOf (Args : list string) : string :=
  if Nat.ltb 1 (List.length Args) then nth 1 Args EmptyString else defaultCep.

Definition brasilAPI (cep : string) : string :=
  "https://brasilapi.com.br/api/cep/v1/" ++ cep.

Definition viaCEP (cep : string) : string :=
  "http://viacep.com.br/ws/" ++ cep ++ "/json/".

Definition timeout : Duration := (1 * Second)%N.

Definition printEndereco (api : string) (addr : Address.t) : string :=
  "Endereço (" ++ api ++ "): " ++ Address.Logradouro addr ++ ", " ++ Address.Bairro addr
    ++ ", " ++ Address.Localidade addr ++ " - " ++ Address.Uf addr ++ nl.

Definition printErro (api : string) (err : error) : string :=
  "Erro (" ++ api ++ "): " ++ Error err ++ nl.

Definition printTimeout : string :=
  "Timeout: Nenhuma das APIs respondeu em tempo hábil." ++ nl.

(** The two goroutines that [main] starts for a postal code. *)
Definition goroutines (ctx : Context) (net : Network) (cep : string) : list (Go unit) :=
  [ fetchAddress ctx net (brasilAPI cep) brasilAPIResult brasilAPIErr true;
    fetchAddress ctx net (viaCEP cep) viaCEPResult viaCEPErr false ].

(** The five clauses of the [select] of [main], in source order. *)
Definition clauses (ctx : Context) : list Case :=
  [ RecvAddress brasilAPIResult (printEndereco "Brasil API");
    RecvError brasilAPIErr (printErro "Brasil API");
    RecvAddress viaCEPResult (printEndereco "ViaCEP");
    RecvError viaCEPErr (printErro "ViaCEP");
    RecvDone ctx printTimeout ].

(** The ways a run of the program can end, given the command line and the
    behaviour of the network.  A panic in a goroutine ends the process. *)
Definition main (Args : list string) (net : Network) : list Outcome :=
  let cep := cepOf Args in
  let ctx := WithTimeout 0 timeout in
  let gs := goroutines ctx net cep in
  if existsb panics gs then [RuntimePanic]
  else map Stdout (select gs (clauses ctx)).

(** * Properties *)

(** ** The body of a goroutine *)

Definition sendOf (ch : chan) (v : message) (t : N) : Send :=
  {| on := ch; what := v; since := t |}.

(** The Address built from a decoded BrasilAPI response. *)
Definition ofBrasilAPI (raw : BrasilAPIResponse.t) : Address.t :=
  {| Address.Cep := BrasilAPIResponse.Cep raw;
     Address.Logradouro := BrasilAPIResponse.Street raw;
     Address.Bairro := BrasilAPIResponse.Neighborhood raw;
     Address.Localidade := BrasilAPIResponse.City raw;
     Address.Uf := BrasilAPIResponse.State raw |}.

(** The Address built from a decoded ViaCEP response. *)
Definition ofViaCEP (raw : ViaCEPResponse.t) : Address.t :=
  {| Address.Cep := ViaCEPResponse.Cep raw;
     Address.Logradouro := ViaCEPResponse.Logradouro raw;
     Address.Bairro := ViaCEPResponse.Bairro raw;
     Address.Localidade := ViaCEPResponse.Localidade raw;
     Address.Uf := ViaCEPResponse.Uf raw |}.

(** Decoding under the schema that [isBrasilAPI] selects fails. *)
Definition decodeFails (isBrasilAPI : bool) (b : body) : Prop :=
  if isBrasilAPI then exists e, DecodeBrasilAPI b = inl e
  else exists e, DecodeViaCEP b = inl e.

Section FetchAddress.
Variables (ctx : Context) (net : Network) (url : string) (result errChan : chan).

Let req := NewRequestWithContext ctx "GET" url.

Lemma fetch_nil isBrasilAPI :
  client_Do net req = NilDereference ->
  fetchAddress ctx net url result errChan isBrasilAPI = ([], Panic).
Proof. unfold fetchAddress; fold req; intros ->; reflexivity. Qed.

Lemma fetch_transport isBrasilAPI t err :
  client_Do net req = Returns t (inl err) ->
  fetchAddress ctx net url result errChan isBrasilAPI
  = ([sendOf errChan (OfError err) t], Return).
Proof. unfold fetchAddress; fold req; intros ->; reflexivity. Qed.

Lemma fetch_brasil_ok t resp raw :
  client_Do net req = Returns t (inr resp) ->
  DecodeBrasilAPI (Body resp) = inr raw ->
  fetchAddress ctx net url result errChan true
  = ([sendOf result (OfAddress (ofBrasilAPI raw)) t], Next tt).
Proof. unfold fetchAddress; fold req; intros -> Hd; simpl; rewrite Hd; reflexivity. Qed.

Lemma fetch_brasil_err t resp err :
  client_Do net req = Returns t (inr resp) ->
  DecodeBrasilAPI (Body resp) = inl err ->
  fetchAddress ctx net url result errChan true
  = ([sendOf errChan (OfError err) t], Return).
Proof. unfold fetchAddress; fold req; intros -> Hd; simpl; rewrite Hd; reflexivity. Qed.

Lemma fetch_viacep_ok t resp raw :
  client_Do net req = Returns t (inr resp) ->
  DecodeViaCEP (Body resp) = inr raw ->
  fetchAddress ctx net url result errChan false
  = ([sendOf result (OfAddress (ofViaCEP raw)) t], Next tt).
Proof. unfold fetchAddress; fold req; intros -> Hd; simpl; rewrite Hd; reflexivity. Qed.

Lemma fetch_viacep_err t resp err :
  client_Do net req = Returns t (inr resp) ->
  DecodeViaCEP (Body resp) = inl err ->
  fetchAddress ctx net url result errChan false
  = ([sendOf errChan (OfError err) t], Return).
Proof. unfold fetchAddress; fold req; intros -> Hd; simpl; rewrite Hd; reflexivity. Qed.

(** The three shapes a run of [fetchAddress] can have. *)
Inductive shape (g : Go unit) : Prop :=
| ShapePanic : client_Do net req = NilDereference -> g = ([], Panic) -> shape g
| ShapeErr t e : g = ([sendOf errChan (OfError e) t], Return) -> shape g
| ShapeOk t a : g = ([sendOf result (OfAddress a) t], Next tt) -> shape g.

Lemma fetch_shape isBrasilAPI :
  shape (fetchAddress ctx net url result errChan isBrasilAPI).
Proof.
  destruct (client_Do net req) as [|t [err|resp]] eqn:Hdo.
  - apply ShapePanic; [exact Hdo | now apply fetch_nil].
  - eapply ShapeErr; apply fetch_transport; exact Hdo.
  - destruct isBrasilAPI.
    + destruct (DecodeBrasilAPI (Body resp)) as [err|raw] eqn:Hd.
      * eapply ShapeErr; eapply fetch_brasil_err; eauto.
      * eapply ShapeOk; eapply fetch_brasil_ok; eauto.
    + destruct (DecodeViaCEP (Body resp)) as [err|raw] eqn:Hd.
      * eapply ShapeErr; eapply fetch_viacep_err; eauto.
      * eapply ShapeOk; eapply fetch_viacep_ok; eauto.
Qed.
End FetchAddress.

(** C9.  One invocation of [fetchAddress] reaches at most one send; what it
    sends is an Address on its result channel or an error on its error
    channel, never one of each; and an invocation that does not panic sends
    exactly one message. *)
Theorem fetchAddress_sends_at_most_once :
  forall ctx net url result errChan isBrasilAPI,
    let g := fetchAddress ctx net url result errChan isBrasilAPI in
    List.length (fst g) <= 1
    /\ Forall (fun s => (on s = result /\ exists a, what s = OfAddress a)
                        \/ (on s = errChan /\ exists e, what s = OfError e)) (fst g)
    /\ ~ (exists s1 s2 a e, In s1 (fst g) /\ In s2 (fst g)
                            /\ what s1 = OfAddress a /\ what s2 = OfError e)
    /\ (panics g = false -> List.length (fst g) = 1).
Proof.
  intros ctx net url result errChan b g.
  destruct (fetch_shape ctx net url result errChan b) as [_ Hg|t e Hg|t a Hg];
    subst g; rewrite Hg; cbn [fst snd List.length panics].
  - repeat split; auto.
    + intros (s1 & _ & _ & _ & [] & _).
    + discriminate.
  - repeat split; auto.
    + constructor; [right; split; [reflexivity | now exists e] | constructor].
    + intros (s1 & s2 & a & e' & [<-|[]] & _ & Ha & _); discriminate Ha.
  - repeat split; auto.
    + constructor; [left; split; [reflexivity | now exists a] | constructor].
    + intros (s1 & s2 & a' & e & _ & [<-|[]] & _ & He); discriminate He.
Qed.

(** ** Decoding *)

(** A member name selects the field with the given tag. *)
Definition selects (fields : list string) (key tag : string) : bool :=
  match field_of fields key with
  | Some f => f =? tag
  | None => false
  end.

(** No member of the object selects the field with the given tag. *)
Definition omits (fields : list string) (ms : list (string * json)) (tag : string) : bool :=
  forallb (fun kv => negb (selects fields (fst kv) tag)) ms.

(** No member of the object selects any field. *)
Definition mismatched (fields : list string) (ms : list (string * json)) : bool :=
  forallb (fun kv => match field_of fields (fst kv) with Some _ => false | None => true end) ms.

Section UnmarshalFacts.
Variable T : Type.
Variable fields : list string.
Variable set : string -> string -> T -> T.
Variable zero : T.
Variable name : string.

Lemma field_of_In key f : field_of fields key = Some f -> In f fields.
Proof.
  unfold field_of.
  destruct (find (String.eqb key) fields) eqn:H1.
  - intros [= <-]. now apply find_some in H1.
  - intros H2. now apply find_some in H2.
Qed.

Lemma object_cons kv ms st :
  object T fields set name (kv :: ms) st
  = object T fields set name ms (member T fields set name kv st).
Proof. reflexivity. Qed.

Lemma object_mismatched ms st :
  mismatched fields ms = true -> object T fields set name ms st = st.
Proof.
  revert st; induction ms as [|kv ms IH]; intros [r e] H; [reflexivity|].
  simpl in H. apply andb_true_iff in H as [Hkv Hms].
  rewrite object_cons. unfold member.
  destruct (field_of fields (fst kv)); [discriminate|]. now apply IH.
Qed.

(** An object none of whose members selects a field decodes to the zero
    value of the struct, and so does the empty object. *)
Lemma Decode_mismatched ms :
  mismatched fields ms = true ->
  Decode T fields set zero name (JSONValue (JObject ms)) = inr zero.
Proof.
  intros H. unfold Decode, value. now rewrite object_mismatched.
Qed.
End UnmarshalFacts.

(** ** When decoding fails *)

(** A member that selects a field and carries neither a string nor null. *)
Definition badMember (fields : list string) (kv : string * json) : bool :=
  match field_of fields (fst kv) with
  | None => false
  | Some _ =>
      match snd kv with
      | JString _ | JNull => false
      | _ => true
      end
  end.

(** The JSON values that do not decode into a struct with the given tags. *)
Definition undecodable (fields : list string) (j : json) : bool :=
  match j with
  | JNull => false
  | JObject ms => existsb (badMember fields) ms
  | _ => true
  end.

Section DecodeFailure.
Variable T : Type.
Variable fields : list string.
Variable set : string -> string -> T -> T.
Variable zero : T.
Variable name : string.

Lemma member_saved kv r e :
  snd (member T fields set name kv (r, e)) = None
  <-> e = None /\ badMember fields kv = false.
Proof.
  unfold member, badMember.
  destruct (field_of fields (fst kv)) as [f|]; [|cbn; intuition].
  destruct (snd kv); cbn; try (now intuition);
    (split; [intros H; destruct e; discriminate H | intros [_ H]; discriminate H]).
Qed.

Lemma object_saved ms :
  forall r e,
    snd (object T fields set name ms (r, e)) = None
    <-> e = None /\ existsb (badMember fields) ms = false.
Proof.
  induction ms as [|kv ms IH]; intros r e; [cbn; intuition|].
  rewrite object_cons.
  destruct (member T fields set name kv (r, e)) as [r' e'] eqn:Hm.
  rewrite IH. cbn [existsb]. rewrite orb_false_iff.
  pose proof (member_saved kv r e) as Hs. rewrite Hm in Hs. cbn [snd] in Hs.
  intuition.
Qed.

Lemma Decode_fails_iff j :
  (exists e, Decode T fields set zero name (JSONValue j) = inl e)
  <-> undecodable fields j = true.
Proof.
  unfold Decode, value, undecodable.
  destruct j as [|b|n|s|l|ms];
    try (split; [reflexivity | intros _; eexists; reflexivity]);
    try (split; [intros [e H]; discriminate H | discriminate]).
  pose proof (object_saved ms zero None) as Hs.
  destruct (object T fields set name ms (zero, None)) as [r [e|]]; cbn [snd] in Hs.
  - split; [intros _ | intros _; now exists e].
    destruct (existsb (badMember fields) ms); [reflexivity|].
    assert (H : Some e = None) by (apply Hs; auto). discriminate H.
  - split; [intros [e H]; discriminate H|].
    intros H. destruct Hs as [Hs _]. destruct (Hs eq_refl) as [_ Hf]. congruence.
Qed.
End DecodeFailure.

(** ** BrasilAPI *)

Definition craftedBrasil : body :=
  JSONValue (JObject [("cep", JString "01001000"); ("street", JString "Praça da Sé");
                      ("neighborhood", JString "Sé"); ("city", JString "São Paulo");
                      ("state", JString "SP")]).

Definition craftedAddress : Address.t :=
  {| Address.Cep := "01001000";
     Address.Logradouro := "Praça da Sé";
     Address.Bairro := "Sé";
     Address.Localidade := "São Paulo";
     Address.Uf := "SP" |}.

(** A provider that answers after [t] nanoseconds with the given status and
    body, and one that never answers. *)
Definition answers (t : N) (code : N) (b : body) : Exchange :=
  {| latency := Some t;
     reply := inr {| StatusCode := code; Body := b |};
     cancelled := DeadlineExceeded |}.

Definition fails (t : N) (e : error) : Exchange :=
  {| latency := Some t; reply := inl e; cancelled := DeadlineExceeded |}.

Definition silent : Exchange :=
  {| latency := None;
     reply := inl (TransportError "no answer");
     cancelled := DeadlineExceeded |}.

Definition millis (n : N) : N := (n * 1000000)%N.

(** C3.  Whenever the BrasilAPI exchange returns a response whose body
    decodes to [raw], the goroutine sends exactly the Address with
    postal code = raw cep, street = raw street, neighborhood = raw
    neighborhood, city = raw city, state = raw state; an object carrying
    these five members decodes to them; and the crafted response of the
    specification is mapped to the expected Address. *)
Theorem brasilapi_field_mapping :
  (forall ctx net url result errChan t resp raw,
      client_Do net (NewRequestWithContext ctx "GET" url) = Returns t (inr resp) ->
      DecodeBrasilAPI (Body resp) = inr raw ->
      fetchAddress ctx net url result errChan true
      = ([sendOf result
            (OfAddress {| Address.Cep := BrasilAPIResponse.Cep raw;
                          Address.Logradouro := BrasilAPIResponse.Street raw;
                          Address.Bairro := BrasilAPIResponse.Neighborhood raw;
                          Address.Localidade := BrasilAPIResponse.City raw;
                          Address.Uf := BrasilAPIResponse.State raw |}) t], Next tt))
  /\ (forall cep street neighborhood city state,
         DecodeBrasilAPI
           (JSONValue (JObject [("cep", JString cep); ("street", JString street);
                                ("neighborhood", JString neighborhood);
                                ("city", JString city); ("state", JString state)]))
         = inr {| BrasilAPIResponse.Cep := cep;
                  BrasilAPIResponse.State := state;
                  BrasilAPIResponse.City := city;
                  BrasilAPIResponse.Neighborhood := neighborhood;
                  BrasilAPIResponse.Street := street;
                  BrasilAPIResponse.Service := "" |})
  /\ (forall code t,
         (t <= timeout)%N ->
         fetchAddress (WithTimeout 0 timeout) (fun _ => answers t code craftedBrasil)
                      (brasilAPI "01001000") brasilAPIResult brasilAPIErr true
         = ([sendOf brasilAPIResult (OfAddress craftedAddress) t], Next tt)).
Proof.
  split; [|split].
  - intros ctx net url result errChan t resp raw Hdo Hd.
    now apply fetch_brasil_ok with (resp := resp).
  - reflexivity.
  - intros code t Ht.
    apply fetch_brasil_ok with
      (resp := {| StatusCode := code; Body := craftedBrasil |})
      (raw := BrasilAPIResponse.Build "01001000" "SP" "São Paulo" "Sé" "Praça da Sé" "");
      [|reflexivity].
    unfold NewRequestWithContext.
    replace (url_Parse (brasilAPI "01001000"))
      with (Some {| source := brasilAPI "01001000" |})
      by (vm_compute; reflexivity).
    unfold client_Do, answers; cbn [URL source Ctx latency reply deadline WithTimeout].
    apply N.leb_le in Ht. cbn [N.add]. now rewrite Ht.
Qed.

Lemma brasilapi_field_mapping_witness :
  fetchAddress (WithTimeout 0 timeout) (fun _ => answers (millis 10) 200 craftedBrasil)
               (brasilAPI "01001000") brasilAPIResult brasilAPIErr true
  = ([sendOf brasilAPIResult (OfAddress craftedAddress) (millis 10)], Next tt).
Proof.
  exact (proj1 brasilapi_field_mapping
           (WithTimeout 0 timeout) (fun _ => answers (millis 10) 200 craftedBrasil)
           (brasilAPI "01001000") brasilAPIResult brasilAPIErr (millis 10)
           {| StatusCode := 200; Body := craftedBrasil |}
           (BrasilAPIResponse.Build "01001000" "SP" "São Paulo" "Sé" "Praça da Sé" "")
           eq_refl eq_refl).
Defined.

(** ** ViaCEP *)

(** The tags of [ViaCEPResponse] that [fetchAddress] copies, and the rest. *)
Definition consumedTags : list string := ["cep"; "logradouro"; "bairro"; "localidade"; "uf"].
Definition ignoredTags : list string := ["complemento"; "ibge"; "gia"; "ddd"; "siafi"].

(** The members of an object that select none of the ignored fields. *)
Definition withoutIgnored (ms : list (string * json)) : list (string * json) :=
  filter (fun kv => negb (existsb (selects ViaCEPResponse.fields (fst kv)) ignoredTags)) ms.

(** The field of an Address that a consumed tag is copied to. *)
Definition addressField (tag : string) (a : Address.t) : string :=
  if tag =? "cep" then Address.Cep a
  else if tag =? "logradouro" then Address.Logradouro a
  else if tag =? "bairro" then Address.Bairro a
  else if tag =? "localidade" then Address.Localidade a
  else if tag =? "uf" then Address.Uf a
  else "".

Ltac each_tag H :=
  simpl in H;
  repeat match type of H with
         | _ \/ _ => destruct H as [H|H]
         | False => destruct H
         | _ = _ => subst
         end.

Lemma viacep_fields_split f :
  In f ViaCEPResponse.fields -> In f consumedTags \/ In f ignoredTags.
Proof. simpl; intuition. Qed.

Lemma set_ignored f v r :
  In f ignoredTags -> ofViaCEP (ViaCEPResponse.set f v r) = ofViaCEP r.
Proof. intros H; each_tag H; reflexivity. Qed.

Lemma set_consumed f v r r' :
  In f consumedTags -> ofViaCEP r = ofViaCEP r' ->
  ofViaCEP (ViaCEPResponse.set f v r) = ofViaCEP (ViaCEPResponse.set f v r').
Proof.
  intros H E; destruct r, r'; unfold ofViaCEP in E; simpl in E.
  injection E as -> -> -> -> ->.
  each_tag H; reflexivity.
Qed.

Lemma set_other tag f v r :
  In tag consumedTags -> In f ViaCEPResponse.fields -> (f =? tag) = false ->
  addressField tag (ofViaCEP (ViaCEPResponse.set f v r)) = addressField tag (ofViaCEP r).
Proof.
  intros Ht Hf Hne; each_tag Ht; each_tag Hf; try discriminate Hne; reflexivity.
Qed.

Lemma selects_ignored key :
  existsb (selects ViaCEPResponse.fields key) ignoredTags = true ->
  exists f, field_of ViaCEPResponse.fields key = Some f /\ In f ignoredTags.
Proof.
  intros H. apply existsb_exists in H as (tag & Hin & Hsel).
  unfold selects in Hsel.
  destruct (field_of ViaCEPResponse.fields key) as [f|]; [|discriminate].
  apply String.eqb_eq in Hsel; subst. now exists tag.
Qed.

Lemma selects_consumed key f :
  existsb (selects ViaCEPResponse.fields key) ignoredTags = false ->
  field_of ViaCEPResponse.fields key = Some f -> In f consumedTags.
Proof.
  intros H Hf.
  destruct (viacep_fields_split f (field_of_In _ _ _ Hf)) as [Hc|Hi]; [exact Hc|].
  exfalso. assert (existsb (selects ViaCEPResponse.fields key) ignoredTags = true);
    [|congruence].
  apply existsb_exists. exists f. split; [exact Hi|].
  unfold selects. rewrite Hf. apply String.eqb_refl.
Qed.

Abbreviation objectViaCEP :=
  (object ViaCEPResponse.t ViaCEPResponse.fields ViaCEPResponse.set ViaCEPResponse.name).
Abbreviation memberViaCEP :=
  (member ViaCEPResponse.t ViaCEPResponse.fields ViaCEPResponse.set ViaCEPResponse.name).

(** A consumed field that no member selects keeps the value it had. *)
Lemma object_omits tag ms :
  In tag consumedTags ->
  omits ViaCEPResponse.fields ms tag = true ->
  forall st,
    addressField tag (ofViaCEP (fst (objectViaCEP ms st)))
    = addressField tag (ofViaCEP (fst st)).
Proof.
  intros Ht. induction ms as [|[k j] ms IH]; intros H st; [reflexivity|].
  simpl in H. apply andb_true_iff in H as [Hk Hms].
  rewrite object_cons, IH by exact Hms.
  destruct st as [r e]. unfold member, selects in *; cbn [fst snd] in *.
  destruct (field_of ViaCEPResponse.fields k) as [f|] eqn:Hf; [|reflexivity].
  apply negb_true_iff in Hk.
  destruct j; try reflexivity.
  cbn [fst]. apply set_other; auto. eapply field_of_In; eauto.
Qed.

Definition craftedViaCEP : list (string * json) :=
  [("cep", JString "01001-000"); ("logradouro", JString "Praça da Sé");
   ("complemento", JString "lado ímpar"); ("bairro", JString "Sé");
   ("localidade", JString "São Paulo"); ("uf", JString "SP");
   ("ibge", JString "3550308"); ("gia", JString "1004"); ("ddd", JString "11");
   ("siafi", JString "7107")].

(** What a run that sent an Address says about the decoding. *)
Lemma sent_address_viacep ctx net url result errChan t resp a :
  client_Do net (NewRequestWithContext ctx "GET" url) = Returns t (inr resp) ->
  fetchAddress ctx net url result errChan false
  = ([sendOf result (OfAddress a) t], Next tt) ->
  exists raw, DecodeViaCEP (Body resp) = inr raw /\ a = ofViaCEP raw.
Proof.
  intros Hdo Hrun.
  destruct (DecodeViaCEP (Body resp)) as [err|raw] eqn:Hd.
  - rewrite (fetch_viacep_err _ _ _ _ _ _ _ _ Hdo Hd) in Hrun. discriminate Hrun.
  - rewrite (fetch_viacep_ok _ _ _ _ _ _ _ _ Hdo Hd) in Hrun.
    injection Hrun as <-. now exists raw.
Qed.

(** A value the decoder stores in, or skips for, a field of type string. *)
Definition stringOrNull (j : json) : bool :=
  match j with
  | JString _ | JNull => true
  | _ => false
  end.

(** A member that selects one of the fields [fetchAddress] does not copy. *)
Definition ignoredMember (kv : string * json) : bool :=
  existsb (selects ViaCEPResponse.fields (fst kv)) ignoredTags.

(** Every member that selects such a field carries a string or null. *)
Definition ignoredWellTyped (ms : list (string * json)) : bool :=
  forallb (fun kv => implb (ignoredMember kv) (stringOrNull (snd kv))) ms.

(** What [fetchAddress] makes of a decoding under the ViaCEP schema. *)
Definition addressOf (d : error + ViaCEPResponse.t) : error + Address.t :=
  match d with
  | inl err => inl err
  | inr raw => inr (ofViaCEP raw)
  end.

(** The crafted response with the IBGE code written as a number. *)
Definition craftedViaCEPNumericIbge : list (string * json) :=
  [("cep", JString "01001-000"); ("logradouro", JString "Praça da Sé");
   ("complemento", JString "lado ímpar"); ("bairro", JString "Sé");
   ("localidade", JString "São Paulo"); ("uf", JString "SP");
   ("ibge", JNumber "3550308"); ("gia", JString "1004"); ("ddd", JString "11");
   ("siafi", JString "7107")].

(** With well-typed ignored members, dropping them changes neither the
    consumed fields nor the saved error. *)
Lemma object_withoutIgnored_typed ms :
  ignoredWellTyped ms = true ->
  forall r e r',
    ofViaCEP r = ofViaCEP r' ->
    ofViaCEP (fst (objectViaCEP ms (r, e)))
    = ofViaCEP (fst (objectViaCEP (withoutIgnored ms) (r', e)))
    /\ snd (objectViaCEP ms (r, e)) = snd (objectViaCEP (withoutIgnored ms) (r', e)).
Proof.
  induction ms as [|[k j] ms IH]; intros Hwt r e r' Hr; [now split|].
  cbn [ignoredWellTyped forallb] in Hwt. apply andb_true_iff in Hwt as [Hkv Hwt].
  unfold ignoredMember in Hkv; cbn [fst snd] in Hkv.
  rewrite object_cons. unfold withoutIgnored. cbn [filter fst].
  fold (withoutIgnored ms).
  destruct (existsb (selects ViaCEPResponse.fields k) ignoredTags) eqn:Hsel;
    cbn [negb implb] in *.
  - apply selects_ignored in Hsel as (f & Hf & Hin).
    unfold member; cbn [fst snd]; rewrite Hf.
    destruct j; try discriminate Hkv; apply IH; auto.
    now rewrite set_ignored.
  - rewrite object_cons. unfold member; cbn [fst snd].
    destruct (field_of ViaCEPResponse.fields k) as [f|] eqn:Hf; [|now apply IH].
    pose proof (selects_consumed k f Hsel Hf) as Hc.
    destruct j; apply IH; auto.
    now apply set_consumed.
Qed.

Lemma Decode_withoutIgnored ms :
  ignoredWellTyped ms = true ->
  addressOf (DecodeViaCEP (JSONValue (JObject ms)))
  = addressOf (DecodeViaCEP (JSONValue (JObject (withoutIgnored ms)))).
Proof.
  intros Hwt. unfold DecodeViaCEP, Decode, value.
  destruct (object_withoutIgnored_typed ms Hwt ViaCEPResponse.zero None
              ViaCEPResponse.zero eq_refl) as [Hsame Herr].
  destruct (objectViaCEP ms (ViaCEPResponse.zero, None)) as [r e].
  destruct (objectViaCEP (withoutIgnored ms) (ViaCEPResponse.zero, None)) as [r' e'].
  cbn [fst snd] in Hsame, Herr. subst e'.
  destruct e; cbn [addressOf]; [reflexivity | now rewrite Hsame].
Qed.

Lemma fetch_viacep_addressOf ctx net url result errChan t resp :
  client_Do net (NewRequestWithContext ctx "GET" url) = Returns t (inr resp) ->
  fetchAddress ctx net url result errChan false
  = match addressOf (DecodeViaCEP (Body resp)) with
    | inl err => ([sendOf errChan (OfError err) t], Return)
    | inr a => ([sendOf result (OfAddress a) t], Next tt)
    end.
Proof.
  intros Hdo. destruct (DecodeViaCEP (Body resp)) as [err|raw] eqn:Hd; cbn [addressOf].
  - exact (fetch_viacep_err _ _ _ _ _ _ _ _ Hdo Hd).
  - exact (fetch_viacep_ok _ _ _ _ _ _ _ _ Hdo Hd).
Qed.

(** C4, as the claim is written, fails: the crafted response and the same
    response with the IBGE code as a number differ only in a member that
    selects the field ibge, yet the first is answered with an Address and
    the second with an error of the decoder and no Address. *)
Lemma viacep_ignored_field_can_fail :
  withoutIgnored craftedViaCEP = withoutIgnored craftedViaCEPNumericIbge
  /\ fetchAddress (WithTimeout 0 timeout)
                  (fun _ => answers (millis 500) 200 (JSONValue (JObject craftedViaCEP)))
                  (viaCEP "01001000") viaCEPResult viaCEPErr false
     = ([sendOf viaCEPResult
           (OfAddress {| Address.Cep := "01001-000";
                         Address.Logradouro := "Praça da Sé";
                         Address.Bairro := "Sé";
                         Address.Localidade := "São Paulo";
                         Address.Uf := "SP" |}) (millis 500)], Next tt)
  /\ fetchAddress (WithTimeout 0 timeout)
                  (fun _ => answers (millis 500) 200
                                    (JSONValue (JObject craftedViaCEPNumericIbge)))
                  (viaCEP "01001000") viaCEPResult viaCEPErr false
     = ([sendOf viaCEPErr
           (OfError (UnmarshalTypeError "number" "ViaCEPResponse" "ibge"))
           (millis 500)], Return).
Proof. repeat split. Qed.

(** C4, amended.  For a ViaCEP exchange that returns a response: when the
    body decodes, the Address sent is built from cep, logradouro, bairro,
    localidade and uf alone; two responses that differ only in members that
    select complemento, ibge, gia, ddd or siafi give the same run, provided
    each such member carries a string or null; a member that selects one of
    these fields and carries any other value makes the run send an error
    and no Address; and a consumed field that no member of the response
    selects is the empty string in the Address sent. *)
Theorem viacep_address_from_typed_response :
  forall ctx net url result errChan t resp,
    client_Do net (NewRequestWithContext ctx "GET" url) = Returns t (inr resp) ->
    (forall raw,
        DecodeViaCEP (Body resp) = inr raw ->
        fetchAddress ctx net url result errChan false
        = ([sendOf result
              (OfAddress {| Address.Cep := ViaCEPResponse.Cep raw;
                            Address.Logradouro := ViaCEPResponse.Logradouro raw;
                            Address.Bairro := ViaCEPResponse.Bairro raw;
                            Address.Localidade := ViaCEPResponse.Localidade raw;
                            Address.Uf := ViaCEPResponse.Uf raw |}) t], Next tt))
    /\ (forall ms ms' net' code',
           Body resp = JSONValue (JObject ms) ->
           client_Do net' (NewRequestWithContext ctx "GET" url)
           = Returns t (inr {| StatusCode := code'; Body := JSONValue (JObject ms') |}) ->
           withoutIgnored ms = withoutIgnored ms' ->
           ignoredWellTyped ms = true -> ignoredWellTyped ms' = true ->
           fetchAddress ctx net' url result errChan false
           = fetchAddress ctx net url result errChan false)
    /\ (forall ms kv,
           Body resp = JSONValue (JObject ms) ->
           In kv ms -> ignoredMember kv = true -> stringOrNull (snd kv) = false ->
           exists err,
             fetchAddress ctx net url result errChan false
             = ([sendOf errChan (OfError err) t], Return))
    /\ (forall ms a,
           Body resp = JSONValue (JObject ms) ->
           fetchAddress ctx net url result errChan false
           = ([sendOf result (OfAddress a) t], Next tt) ->
           (omits ViaCEPResponse.fields ms "cep" = true -> Address.Cep a = "")
           /\ (omits ViaCEPResponse.fields ms "logradouro" = true -> Address.Logradouro a = "")
           /\ (omits ViaCEPResponse.fields ms "bairro" = true -> Address.Bairro a = "")
           /\ (omits ViaCEPResponse.fields ms "localidade" = true -> Address.Localidade a = "")
           /\ (omits ViaCEPResponse.fields ms "uf" = true -> Address.Uf a = "")).
Proof.
  intros ctx net url result errChan t resp Hdo. split; [|split; [|split]].
  - intros raw Hd. now apply fetch_viacep_ok with (resp := resp).
  - intros ms ms' net' code' Hb Hdo' Hsame Hwt Hwt'.
    rewrite (fetch_viacep_addressOf _ _ _ _ _ _ _ Hdo).
    rewrite (fetch_viacep_addressOf _ _ _ _ _ _ _ Hdo'). cbn [Body].
    rewrite Hb, (Decode_withoutIgnored ms Hwt), (Decode_withoutIgnored ms' Hwt').
    now rewrite Hsame.
  - intros ms kv Hb Hin Hign Hty.
    assert (Hbad : badMember ViaCEPResponse.fields kv = true).
    { unfold ignoredMember in Hign. apply selects_ignored in Hign as (f & Hf & _).
      unfold badMember. rewrite Hf. destruct (snd kv); try reflexivity; discriminate Hty. }
    destruct (proj2 (Decode_fails_iff ViaCEPResponse.t ViaCEPResponse.fields
                       ViaCEPResponse.set ViaCEPResponse.zero ViaCEPResponse.name
                       (JObject ms))) as [err He].
    { cbn [undecodable]. apply existsb_exists. now exists kv. }
    exists err. apply fetch_viacep_err with (resp := resp); [exact Hdo|].
    rewrite Hb. exact He.
  - intros ms a Hb Hrun.
    destruct (sent_address_viacep _ _ _ _ _ _ _ _ Hdo Hrun) as (raw & Hd & ->).
    rewrite Hb in Hd. unfold DecodeViaCEP, Decode, value in Hd.
    destruct (objectViaCEP ms (ViaCEPResponse.zero, None)) as [r [e|]] eqn:Hobj;
      [discriminate|]. injection Hd as ->.
    assert (Hkeep : forall tag, In tag consumedTags ->
                                omits ViaCEPResponse.fields ms tag = true ->
                                addressField tag (ofViaCEP raw) = "").
    { intros tag Hin Hom.
      pose proof (object_omits tag ms Hin Hom (ViaCEPResponse.zero, None)) as H.
      rewrite Hobj in H; cbn [fst] in H. rewrite H.
      each_tag Hin; reflexivity. }
    repeat split; intros Hom.
    + apply (Hkeep "cep"); simpl; auto.
    + apply (Hkeep "logradouro"); simpl; auto.
    + apply (Hkeep "bairro"); simpl; auto.
    + apply (Hkeep "localidade"); simpl; auto.
    + apply (Hkeep "uf"); simpl; auto 6.
Qed.

Lemma viacep_address_from_typed_response_witness :
  exists err,
    fetchAddress (WithTimeout 0 timeout)
                 (fun _ => answers (millis 500) 200
                                   (JSONValue (JObject craftedViaCEPNumericIbge)))
                 (viaCEP "01001000") viaCEPResult viaCEPErr false
    = ([sendOf viaCEPErr (OfError err) (millis 500)], Return).
Proof.
  apply (proj1 (proj2 (proj2
           (viacep_address_from_typed_response
              (WithTimeout 0 timeout)
              (fun _ => answers (millis 500) 200
                                (JSONValue (JObject craftedViaCEPNumericIbge)))
              (viaCEP "01001000") viaCEPResult viaCEPErr (millis 500)
              {| StatusCode := 200; Body := JSONValue (JObject craftedViaCEPNumericIbge) |}
              eq_refl)))
           craftedViaCEPNumericIbge ("ibge", JNumber "3550308") eq_refl).
  - simpl; auto 10.
  - reflexivity.
  - reflexivity.
Defined.

(** ** Status codes and decoding errors *)

(** The tags of the schema that [isBrasilAPI] selects. *)
Definition schemaFields (isBrasilAPI : bool) : list string :=
  if isBrasilAPI then BrasilAPIResponse.fields else ViaCEPResponse.fields.

(** The body BrasilAPI sends with status 404 for an unknown postal code. *)
Definition notFoundBody : list (string * json) :=
  [("name", JString "CepPromiseError");
   ("message", JString "Todos os serviços de CEP retornaram erro.");
   ("type", JString "service_error");
   ("errors", JArray [])].

(** C5.  The run of [fetchAddress] is the same whatever the status code of
    the response: two responses with the same body and any two status codes
    give the same run; when the body decodes under the schema of the
    provider the run sends the mapped Address on the result channel; and
    when the body is an object none of whose members selects a field of the
    schema (the empty object among them) that Address has every field
    blank. *)
Theorem status_code_not_inspected :
  forall ctx net net' url result errChan isBrasilAPI t code code' b,
    client_Do net (NewRequestWithContext ctx "GET" url)
    = Returns t (inr {| StatusCode := code; Body := b |}) ->
    client_Do net' (NewRequestWithContext ctx "GET" url)
    = Returns t (inr {| StatusCode := code'; Body := b |}) ->
    fetchAddress ctx net url result errChan isBrasilAPI
    = fetchAddress ctx net' url result errChan isBrasilAPI
    /\ (forall raw, isBrasilAPI = true -> DecodeBrasilAPI b = inr raw ->
           fetchAddress ctx net url result errChan isBrasilAPI
           = ([sendOf result (OfAddress (ofBrasilAPI raw)) t], Next tt))
    /\ (forall raw, isBrasilAPI = false -> DecodeViaCEP b = inr raw ->
           fetchAddress ctx net url result errChan isBrasilAPI
           = ([sendOf result (OfAddress (ofViaCEP raw)) t], Next tt))
    /\ (forall ms, b = JSONValue (JObject ms) ->
           mismatched (schemaFields isBrasilAPI) ms = true ->
           fetchAddress ctx net url result errChan isBrasilAPI
           = ([sendOf result (OfAddress Address.zero) t], Next tt)).
Proof.
  intros ctx net net' url result errChan isBrasilAPI t code code' b Hdo Hdo'.
  repeat split.
  - destruct isBrasilAPI.
    + destruct (DecodeBrasilAPI b) as [err|raw] eqn:Hd.
      * rewrite (fetch_brasil_err _ _ _ _ _ _ _ _ Hdo Hd).
        now rewrite (fetch_brasil_err _ _ _ _ _ _ _ _ Hdo' Hd).
      * rewrite (fetch_brasil_ok _ _ _ _ _ _ _ _ Hdo Hd).
        now rewrite (fetch_brasil_ok _ _ _ _ _ _ _ _ Hdo' Hd).
    + destruct (DecodeViaCEP b) as [err|raw] eqn:Hd.
      * rewrite (fetch_viacep_err _ _ _ _ _ _ _ _ Hdo Hd).
        now rewrite (fetch_viacep_err _ _ _ _ _ _ _ _ Hdo' Hd).
      * rewrite (fetch_viacep_ok _ _ _ _ _ _ _ _ Hdo Hd).
        now rewrite (fetch_viacep_ok _ _ _ _ _ _ _ _ Hdo' Hd).
  - intros raw -> Hd. exact (fetch_brasil_ok _ _ _ _ _ _ _ _ Hdo Hd).
  - intros raw -> Hd. exact (fetch_viacep_ok _ _ _ _ _ _ _ _ Hdo Hd).
  - intros ms -> Hm. destruct isBrasilAPI; cbn [schemaFields] in Hm.
    + apply (fetch_brasil_ok _ _ _ _ _ _ _ BrasilAPIResponse.zero Hdo).
      now apply Decode_mismatched.
    + apply (fetch_viacep_ok _ _ _ _ _ _ _ ViaCEPResponse.zero Hdo).
      now apply Decode_mismatched.
Qed.

Lemma status_code_not_inspected_witness :
  fetchAddress (WithTimeout 0 timeout)
               (fun _ => answers (millis 80) 404 (JSONValue (JObject notFoundBody)))
               (brasilAPI "00000000") brasilAPIResult brasilAPIErr true
  = ([sendOf brasilAPIResult (OfAddress Address.zero) (millis 80)], Next tt).
Proof.
  exact (proj2 (proj2 (proj2
           (status_code_not_inspected
              (WithTimeout 0 timeout)
              (fun _ => answers (millis 80) 404 (JSONValue (JObject notFoundBody)))
              (fun _ => answers (millis 80) 200 (JSONValue (JObject notFoundBody)))
              (brasilAPI "00000000") brasilAPIResult brasilAPIErr true (millis 80)
              404%N 200%N (JSONValue (JObject notFoundBody)) eq_refl eq_refl)))
           notFoundBody eq_refl eq_refl).
Defined.

(** C6.  When the network call of [fetchAddress] returns a response, an
    error is sent on the error channel exactly when decoding the body under
    the selected schema fails; the error sent is then the decoder's, and the
    run sends no Address. *)
Theorem error_iff_decode_fails :
  forall ctx net url result errChan isBrasilAPI t resp,
    client_Do net (NewRequestWithContext ctx "GET" url) = Returns t (inr resp) ->
    let tr := fst (fetchAddress ctx net url result errChan isBrasilAPI) in
    ((exists s e, In s tr /\ on s = errChan /\ what s = OfError e)
     <-> decodeFails isBrasilAPI (Body resp))
    /\ (decodeFails isBrasilAPI (Body resp) ->
        (forall s a, In s tr -> what s <> OfAddress a)
        /\ exists e, tr = [sendOf errChan (OfError e) t]).
Proof.
  intros ctx net url result errChan isBrasilAPI t resp Hdo tr; subst tr.
  destruct isBrasilAPI; cbn [decodeFails].
  - destruct (DecodeBrasilAPI (Body resp)) as [err|raw] eqn:Hd.
    + rewrite (fetch_brasil_err _ _ _ _ _ _ _ _ Hdo Hd); cbn [fst].
      split; [split|].
      * intros _. now exists err.
      * intros _. exists (sendOf errChan (OfError err) t), err. simpl; auto.
      * intros _. split; [|now exists err].
        intros s a [<-|[]]; discriminate.
    + rewrite (fetch_brasil_ok _ _ _ _ _ _ _ _ Hdo Hd); cbn [fst].
      split; [split|].
      * intros (s & e & [<-|[]] & _ & He); discriminate He.
      * intros (e & He); discriminate He.
      * intros (e & He); discriminate He.
  - destruct (DecodeViaCEP (Body resp)) as [err|raw] eqn:Hd.
    + rewrite (fetch_viacep_err _ _ _ _ _ _ _ _ Hdo Hd); cbn [fst].
      split; [split|].
      * intros _. now exists err.
      * intros _. exists (sendOf errChan (OfError err) t), err. simpl; auto.
      * intros _. split; [|now exists err].
        intros s a [<-|[]]; discriminate.
    + rewrite (fetch_viacep_ok _ _ _ _ _ _ _ _ Hdo Hd); cbn [fst].
      split; [split|].
      * intros (s & e & [<-|[]] & _ & He); discriminate He.
      * intros (e & He); discriminate He.
      * intros (e & He); discriminate He.
Qed.

Lemma error_iff_decode_fails_witness :
  exists s e,
    In s (fst (fetchAddress (WithTimeout 0 timeout)
                 (fun _ => answers (millis 80) 200 (JSONValue (JArray [])))
                 (viaCEP "01001000") viaCEPResult viaCEPErr false))
    /\ on s = viaCEPErr /\ what s = OfError e.
Proof.
  apply (proj1 (error_iff_decode_fails
                  (WithTimeout 0 timeout)
                  (fun _ => answers (millis 80) 200 (JSONValue (JArray [])))
                  (viaCEP "01001000") viaCEPResult viaCEPErr false (millis 80)
                  {| StatusCode := 200; Body := JSONValue (JArray []) |} eq_refl)).
  exists (UnmarshalTypeError "array" "ViaCEPResponse" ""). reflexivity.
Defined.

(** ** The select statement *)

Lemma earliest_least evs m :
  earliest evs = Some m ->
  Forall (fun ev => (m <= fst ev)%N) evs /\ exists txt, In (m, txt) evs.
Proof.
  revert m; induction evs as [|[t txt] evs IH]; intros m H; [discriminate|].
  cbn [earliest] in H. destruct (earliest evs) as [t'|] eqn:He.
  - injection H as <-. destruct (IH t' eq_refl) as [Hall (txt' & Hin)]. split.
    + constructor; [cbn; lia|].
      eapply Forall_impl; [|exact Hall]. cbn; intros; lia.
    + destruct (N.min_spec t t') as [[_ ->]|[_ ->]].
      * exists txt; now left.
      * exists txt'; now right.
  - injection H as <-. destruct evs as [|[t' txt'] evs].
    + split; [repeat constructor; cbn; lia | exists txt; now left].
    + cbn [earliest] in He. destruct (earliest evs); discriminate.
Qed.

Lemma earliest_some evs ev : In ev evs -> exists m, earliest evs = Some m.
Proof.
  destruct evs as [|[t txt] evs]; [intros []|intros _].
  cbn [earliest]. destruct (earliest evs); eauto.
Qed.

(** When one clause can proceed strictly before every other, the select
    runs that clause and no other. *)
Lemma select_first gs cs l1 t0 txt l2 :
  fires gs cs = l1 ++ (t0, txt) :: l2 ->
  Forall (fun ev => (t0 < fst ev)%N) l1 ->
  Forall (fun ev => (t0 < fst ev)%N) l2 ->
  select gs cs = [txt].
Proof.
  intros Hf H1 H2. unfold select. rewrite Hf.
  assert (Hin : In (t0, txt) (l1 ++ (t0, txt) :: l2))
    by (apply in_or_app; right; now left).
  destruct (earliest_some _ _ Hin) as [m Hm]. rewrite Hm.
  destruct (earliest_least _ _ Hm) as [Hall (txt' & Hin')].
  assert (m = t0) as ->.
  { rewrite Forall_forall in Hall, H1, H2.
    pose proof (Hall _ Hin) as Hle. cbn in Hle.
    apply in_app_or in Hin' as [Hin'|[Heq|Hin']].
    - apply H1 in Hin'. cbn in Hin'. lia.
    - now injection Heq.
    - apply H2 in Hin'. cbn in Hin'. lia. }
  assert (Hnone : forall l, Forall (fun ev : N * string => (t0 < fst ev)%N) l ->
                            filter (fun ev => (fst ev =? t0)%N) l = []).
  { induction l as [|ev l IHl]; intros Hl; [reflexivity|].
    inversion Hl as [|? ? Hev Hl']; subst. cbn [filter].
    replace (fst ev =? t0)%N with false by (symmetry; apply N.eqb_neq; lia).
    now apply IHl. }
  rewrite filter_app. cbn [filter fst]. rewrite N.eqb_refl.
  now rewrite (Hnone _ H1), (Hnone _ H2).
Qed.

(** A select one of whose clauses can proceed at some instant does not block
    for ever, and what it runs is one of the clauses that can proceed. *)
Lemma select_some gs cs ev :
  In ev (fires gs cs) ->
  select gs cs <> [] /\ forall txt, In txt (select gs cs) -> exists t, In (t, txt) (fires gs cs).
Proof.
  intros Hin. unfold select.
  destruct (earliest_some _ _ Hin) as [m Hm]. rewrite Hm.
  destruct (earliest_least _ _ Hm) as [_ (txt' & Hin')]. split.
  - intros Hnil.
    assert (H : In txt' (map snd (filter (fun ev => (fst ev =? m)%N) (fires gs cs)))).
    { apply in_map_iff. exists (m, txt'). split; [reflexivity|].
      apply filter_In. split; [exact Hin'|]. cbn. apply N.eqb_refl. }
    rewrite Hnil in H. destruct H.
  - intros txt H. apply in_map_iff in H as ([t txt0] & <- & H).
    apply filter_In in H as [H _]. now exists t.
Qed.

(** ** Requests that cannot be built *)

Lemma fetch_panics ctx net url result errChan isBrasilAPI :
  panics (fetchAddress ctx net url result errChan isBrasilAPI) = true
  <-> url_Parse url = None.
Proof.
  split.
  - intros Hp.
    destruct (fetch_shape ctx net url result errChan isBrasilAPI) as [Hnil _|t e Hg|t a Hg].
    + unfold NewRequestWithContext in Hnil.
      destruct (url_Parse url) as [u|]; [|reflexivity].
      cbn in Hnil. destruct (latency (net (source u))) as [t|]; [destruct (t <=? _)%N|];
        discriminate Hnil.
    + rewrite Hg in Hp; discriminate Hp.
    + rewrite Hg in Hp; discriminate Hp.
  - intros Hu. rewrite fetch_nil; [reflexivity|].
    unfold NewRequestWithContext. now rewrite Hu.
Qed.

(** The instant of the send of a goroutine whose request was built: the
    latency of the exchange when that is within the deadline, the instant
    after the deadline otherwise. *)
Definition reportInstant (ctx : Context) (x : Exchange) : N :=
  match latency x with
  | Some t => if (t <=? deadline ctx)%N then t else N.succ (deadline ctx)
  | None => N.succ (deadline ctx)
  end.

Lemma url_Parse_same url u : url_Parse url = Some u -> u = {| source := url |}.
Proof.
  unfold url_Parse. destruct (cut "#" url) as [v frag].
  destruct (stringContainsCTLByte v); [discriminate|].
  destruct (cut "?" v) as [rest q].
  destruct (escapes_ok rest && escapes_ok frag)%bool; [|discriminate].
  now intros [= <-].
Qed.

Lemma client_Do_instant ctx net url :
  url_Parse url <> None ->
  exists r, client_Do net (NewRequestWithContext ctx "GET" url)
            = Returns (reportInstant ctx (net url)) r.
Proof.
  intros Hu. unfold NewRequestWithContext, reportInstant.
  destruct (url_Parse url) as [u|] eqn:Hp; [|congruence].
  apply url_Parse_same in Hp as ->. cbn.
  destruct (latency (net url)) as [t|]; [destruct (t <=? deadline ctx)%N|]; eauto.
Qed.

(** A goroutine whose request was built is blocked on exactly one send:
    [reports result errChan t v g] says that [g] sends [v] from instant [t],
    an error on [errChan] or an Address on [result]. *)
Inductive reports (result errChan : chan) (t : N) : message -> Go unit -> Prop :=
| ReportsErr e :
    reports result errChan t (OfError e) ([sendOf errChan (OfError e) t], Return)
| ReportsOk a :
    reports result errChan t (OfAddress a) ([sendOf result (OfAddress a) t], Next tt).

Lemma fetch_reports ctx net url result errChan isBrasilAPI :
  url_Parse url <> None ->
  exists v, reports result errChan (reportInstant ctx (net url)) v
                    (fetchAddress ctx net url result errChan isBrasilAPI).
Proof.
  intros Hu. destruct (client_Do_instant ctx net url Hu) as [[err|resp] Hdo].
  - rewrite (fetch_transport _ _ _ _ _ _ _ _ Hdo). eexists; constructor.
  - destruct isBrasilAPI.
    + destruct (DecodeBrasilAPI (Body resp)) as [err|raw] eqn:Hd.
      * rewrite (fetch_brasil_err _ _ _ _ _ _ _ _ Hdo Hd). eexists; constructor.
      * rewrite (fetch_brasil_ok _ _ _ _ _ _ _ _ Hdo Hd). eexists; constructor.
    + destruct (DecodeViaCEP (Body resp)) as [err|raw] eqn:Hd.
      * rewrite (fetch_viacep_err _ _ _ _ _ _ _ _ Hdo Hd). eexists; constructor.
      * rewrite (fetch_viacep_ok _ _ _ _ _ _ _ _ Hdo Hd). eexists; constructor.
Qed.

Lemma fetch_reports_some ctx net url result errChan isBrasilAPI :
  panics (fetchAddress ctx net url result errChan isBrasilAPI) = false ->
  exists v, reports result errChan (reportInstant ctx (net url)) v
                    (fetchAddress ctx net url result errChan isBrasilAPI).
Proof.
  intros Hp. apply fetch_reports.
  intros Hu. apply fetch_panics with (ctx := ctx) (net := net) (result := result)
    (errChan := errChan) (isBrasilAPI := isBrasilAPI) in Hu. congruence.
Qed.

(** ** The race *)

(** The line [main] prints for a message of the provider labelled [api]. *)
Definition textOf (api : string) (v : message) : string :=
  match v with
  | OfAddress a => printEndereco api a
  | OfError e => printErro api e
  end.

(** The message a goroutine is blocked on, and since when. *)
Definition signal (g : Go unit) : option (N * message) :=
  match fst g with
  | s :: _ => Some (since s, what s)
  | [] => None
  end.

(** A goroutine that has not panicked and has reported nothing by [t]. *)
Definition pendingAfter (t : N) (g : Go unit) : Prop :=
  panics g = false /\ Forall (fun s => (t < since s)%N) (fst g).

Lemma reports_signal result errChan t v g :
  reports result errChan t v g ->
  signal g = Some (t, v) /\ (exists ch, fst g = [sendOf ch v t]) /\ panics g = false.
Proof. intros [e|a]; repeat split; eexists; reflexivity. Qed.

(** The clauses of [main] that can proceed, and from when, once both
    goroutines stand blocked on their sends. *)
Lemma fires_race ctx t v t' v' g1 g2 :
  reports brasilAPIResult brasilAPIErr t v g1 ->
  reports viaCEPResult viaCEPErr t' v' g2 ->
  fires [g1; g2] (clauses ctx)
  = [(t, textOf "Brasil API" v); (t', textOf "ViaCEP" v'); (deadline ctx, printTimeout)].
Proof. intros [e|a] [e'|a']; reflexivity. Qed.

Section Race.
Variables (Args : list string) (net : Network).

Let ctx := WithTimeout 0 timeout.
Let cep := cepOf Args.
Let brasil := fetchAddress ctx net (brasilAPI cep) brasilAPIResult brasilAPIErr true.
Let via := fetchAddress ctx net (viaCEP cep) viaCEPResult viaCEPErr false.

Lemma main_no_panic :
  panics brasil = false -> panics via = false ->
  main Args net = map Stdout (select [brasil; via] (clauses ctx)).
Proof.
  intros Hb Hv. unfold main, goroutines. fold ctx cep brasil via.
  cbn [existsb]. now rewrite Hb, Hv.
Qed.

Lemma main_panic :
  panics brasil = true \/ panics via = true -> main Args net = [RuntimePanic].
Proof.
  intros H. unfold main, goroutines. fold ctx cep brasil via.
  cbn [existsb]. destruct H as [-> | ->]; [reflexivity|].
  now rewrite orb_true_r.
Qed.

Lemma race_brasil_first t v :
  (t < deadline ctx)%N -> signal brasil = Some (t, v) -> pendingAfter t via ->
  main Args net = [Stdout (textOf "Brasil API" v)].
Proof.
  intros Ht Hs [Hpv Hlater].
  assert (Hpb : panics brasil = false).
  { destruct (panics brasil) eqn:Hp; [|reflexivity].
    apply fetch_panics in Hp. unfold brasil in Hs.
    rewrite fetch_nil in Hs; [discriminate Hs|].
    unfold NewRequestWithContext. now rewrite Hp. }
  destruct (fetch_reports_some ctx net (brasilAPI cep) brasilAPIResult brasilAPIErr true Hpb) as [vb Hrb]. fold brasil in Hrb.
  destruct (fetch_reports_some ctx net (viaCEP cep) viaCEPResult viaCEPErr false Hpv) as [vv Hrv]. fold via in Hrv.
  destruct (reports_signal _ _ _ _ _ Hrb) as (Hsb & _ & _).
  rewrite Hsb in Hs. injection Hs as Ht0 ->. rewrite Ht0 in Hrb.
  destruct (reports_signal _ _ _ _ _ Hrv) as (_ & (chv & Hfv) & _).
  rewrite Hfv in Hlater. apply Forall_inv in Hlater. cbn [since sendOf] in Hlater.
  rewrite main_no_panic by assumption.
  rewrite (select_first _ _ [] t (textOf "Brasil API" v) _ (fires_race ctx _ _ _ _ _ _ Hrb Hrv));
    [reflexivity | constructor | repeat constructor; assumption].
Qed.

Lemma race_via_first t v :
  (t < deadline ctx)%N -> signal via = Some (t, v) -> pendingAfter t brasil ->
  main Args net = [Stdout (textOf "ViaCEP" v)].
Proof.
  intros Ht Hs [Hpb Hlater].
  assert (Hpv : panics via = false).
  { destruct (panics via) eqn:Hp; [|reflexivity].
    apply fetch_panics in Hp. unfold via in Hs.
    rewrite fetch_nil in Hs; [discriminate Hs|].
    unfold NewRequestWithContext. now rewrite Hp. }
  destruct (fetch_reports_some ctx net (brasilAPI cep) brasilAPIResult brasilAPIErr true Hpb) as [vb Hrb]. fold brasil in Hrb.
  destruct (fetch_reports_some ctx net (viaCEP cep) viaCEPResult viaCEPErr false Hpv) as [vv Hrv]. fold via in Hrv.
  destruct (reports_signal _ _ _ _ _ Hrv) as (Hsv & _ & _).
  rewrite Hsv in Hs. injection Hs as Ht0 ->. rewrite Ht0 in Hrv.
  destruct (reports_signal _ _ _ _ _ Hrb) as (_ & (chb & Hfb) & _).
  rewrite Hfb in Hlater. apply Forall_inv in Hlater. cbn [since sendOf] in Hlater.
  rewrite main_no_panic by assumption.
  rewrite (select_first _ _ [_] t (textOf "ViaCEP" v) [_]
             (fires_race ctx _ _ _ _ _ _ Hrb Hrv));
    [reflexivity | repeat constructor; assumption | repeat constructor; assumption].
Qed.

Lemma race_deadline_first :
  pendingAfter (deadline ctx) brasil -> pendingAfter (deadline ctx) via ->
  main Args net = [Stdout printTimeout].
Proof.
  intros [Hpb Hlb] [Hpv Hlv].
  destruct (fetch_reports_some ctx net (brasilAPI cep) brasilAPIResult brasilAPIErr true Hpb) as [vb Hrb]. fold brasil in Hrb.
  destruct (fetch_reports_some ctx net (viaCEP cep) viaCEPResult viaCEPErr false Hpv) as [vv Hrv]. fold via in Hrv.
  destruct (reports_signal _ _ _ _ _ Hrb) as (_ & (chb & Hfb) & _).
  destruct (reports_signal _ _ _ _ _ Hrv) as (_ & (chv & Hfv) & _).
  rewrite Hfb in Hlb. apply Forall_inv in Hlb. cbn [since sendOf] in Hlb.
  rewrite Hfv in Hlv. apply Forall_inv in Hlv. cbn [since sendOf] in Hlv.
  rewrite main_no_panic by assumption.
  rewrite (select_first _ _ [_; _] (deadline ctx) printTimeout []
             (fires_race ctx _ _ _ _ _ _ Hrb Hrv));
    [reflexivity | repeat constructor; assumption | constructor].
Qed.
End Race.

(** A goroutine whose exchange outlasts the deadline of its context has
    reported nothing when the deadline expires. *)
Lemma late_exchange_pending ctx net url result errChan isBrasilAPI :
  panics (fetchAddress ctx net url result errChan isBrasilAPI) = false ->
  (forall t, latency (net url) = Some t -> (deadline ctx < t)%N) ->
  pendingAfter (deadline ctx) (fetchAddress ctx net url result errChan isBrasilAPI).
Proof.
  intros Hp Hlate. split; [exact Hp|].
  destruct (fetch_reports_some _ _ _ _ _ _ Hp) as [v Hr].
  destruct (reports_signal _ _ _ _ _ Hr) as (_ & (ch & ->) & _).
  constructor; [|constructor]. cbn [since sendOf]. unfold reportInstant.
  destruct (latency (net url)) as [t|]; [|lia].
  specialize (Hlate t eq_refl).
  replace (t <=? deadline ctx)%N with false by (symmetry; apply N.leb_gt; lia). lia.
Qed.

Lemma timeout_is_not_an_address api a : printTimeout <> printEndereco api a.
Proof. discriminate. Qed.

(** Two provider behaviours used in the examples below. *)
Definition refusedThenFound : Network :=
  fun u =>
    if u =? brasilAPI "01001000"
    then fails (millis 10) (TransportError "dial tcp: connection refused")
    else answers (millis 500) 200 (JSONValue (JObject craftedViaCEP)).

Definition tooSlow : Network :=
  fun u =>
    if u =? brasilAPI "01153000"
    then answers (millis 1500) 200 craftedBrasil
    else silent.

(** C1.  The race ends with the first message of either goroutine,
    whatever its kind: when one goroutine stands blocked on a message from
    an instant before the deadline and the other has reported nothing by
    then, the only outcome of the run is the line of that message, and for
    an error that line is the error line of the provider, even though the
    other goroutine may be about to send an Address. *)
Theorem first_signal_ends_race :
  forall Args net t v,
    let ctx := WithTimeout 0 timeout in
    let cep := cepOf Args in
    let brasil := fetchAddress ctx net (brasilAPI cep) brasilAPIResult brasilAPIErr true in
    let via := fetchAddress ctx net (viaCEP cep) viaCEPResult viaCEPErr false in
    (t < deadline ctx)%N ->
    (signal brasil = Some (t, v) -> pendingAfter t via ->
     main Args net = [Stdout (textOf "Brasil API" v)])
    /\ (signal via = Some (t, v) -> pendingAfter t brasil ->
        main Args net = [Stdout (textOf "ViaCEP" v)])
    /\ (forall e, textOf "Brasil API" (OfError e) = ("Erro (Brasil API): " ++ Error e ++ nl)%string)
    /\ (forall e, textOf "ViaCEP" (OfError e) = ("Erro (ViaCEP): " ++ Error e ++ nl)%string).
Proof.
  intros Args net t v ctx cep brasil via Ht. repeat split.
  - intros Hs Hp. now apply race_brasil_first with (t := t).
  - intros Hs Hp. now apply race_via_first with (t := t).
Qed.

Lemma first_signal_ends_race_witness :
  main ["main"; "01001000"] refusedThenFound
  = [Stdout (textOf "Brasil API" (OfError (TransportError "dial tcp: connection refused")))].
Proof.
  apply (proj1 (first_signal_ends_race
                  ["main"; "01001000"] refusedThenFound (millis 10)
                  (OfError (TransportError "dial tcp: connection refused")) eq_refl)).
  - reflexivity.
  - split; [reflexivity|]. constructor; [reflexivity|constructor].
Defined.

(** C2.  The context of a race expires one second (1000000000 ns) after
    the race begins, and both goroutines run under it.  When neither
    goroutine has reported by the time the deadline expires the only outcome
    is the timeout line; so it is when the exchanges of both providers take
    longer than the timeout, and the outcome is then never an Address
    line. *)
Theorem deadline_resolves_to_timeout :
  forall Args net,
    let ctx := WithTimeout 0 timeout in
    let cep := cepOf Args in
    let brasil := fetchAddress ctx net (brasilAPI cep) brasilAPIResult brasilAPIErr true in
    let via := fetchAddress ctx net (viaCEP cep) viaCEPResult viaCEPErr false in
    (timeout = 1000000000%N /\ deadline ctx = timeout
     /\ goroutines ctx net cep = [brasil; via])
    /\ (pendingAfter (deadline ctx) brasil -> pendingAfter (deadline ctx) via ->
        main Args net = [Stdout printTimeout])
    /\ (panics brasil = false -> panics via = false ->
        (forall t, latency (net (brasilAPI cep)) = Some t -> (timeout < t)%N) ->
        (forall t, latency (net (viaCEP cep)) = Some t -> (timeout < t)%N) ->
        main Args net = [Stdout printTimeout]
        /\ forall api a, ~ In (Stdout (printEndereco api a)) (main Args net)).
Proof.
  intros Args net ctx cep brasil via. split; [|split].
  - repeat split.
  - intros Hb Hv. now apply race_deadline_first.
  - intros Hpb Hpv Hlb Hlv.
    assert (H : main Args net = [Stdout printTimeout]).
    { apply race_deadline_first; now apply late_exchange_pending. }
    split; [exact H|]. rewrite H. intros api a [Heq|[]].
    apply (timeout_is_not_an_address api a).
    exact (f_equal (fun o => match o with Stdout txt => txt | RuntimePanic => EmptyString end) Heq).
Qed.

Lemma deadline_resolves_to_timeout_witness :
  main ["main"] tooSlow = [Stdout printTimeout].
Proof.
  apply (proj2 (proj2 (deadline_resolves_to_timeout ["main"] tooSlow))).
  - reflexivity.
  - reflexivity.
  - intros t [= <-]. reflexivity.
  - intros t H. discriminate H.
Defined.

(** ** Keys and URLs *)

(** A byte occurs in a text. *)
Definition hasChar (sep : ascii) (s : string) : bool :=
  existsb (fun c => Ascii.eqb c sep) (list_ascii_of_string s).

Lemma cut_none sep x : hasChar sep x = false -> cut sep x = (x, EmptyString).
Proof.
  unfold hasChar. induction x as [|c x IH]; cbn; [reflexivity|].
  intros H. apply orb_false_iff in H as [-> H]. now rewrite (IH H).
Qed.

Lemma cut_prefix sep p x :
  hasChar sep p = false ->
  cut sep (p ++ x) = ((p ++ fst (cut sep x))%string, snd (cut sep x)).
Proof.
  unfold hasChar. induction p as [|c p IH]; cbn.
  - intros _. now destruct (cut sep x).
  - intros H. apply orb_false_iff in H as [-> H]. now rewrite (IH H).
Qed.

Lemma cut_suffix sep x q :
  hasChar sep q = false ->
  cut sep (x ++ q)
  = if hasChar sep x then (fst (cut sep x), (snd (cut sep x) ++ q)%string)
    else ((x ++ q)%string, EmptyString).
Proof.
  intros Hq. unfold hasChar. induction x as [|c x IH]; cbn.
  - now apply cut_none.
  - destruct (Ascii.eqb c sep); cbn; [reflexivity|].
    rewrite IH. fold (hasChar sep x).
    destruct (hasChar sep x); cbn; [now destruct (cut sep x)|reflexivity].
Qed.

Lemma substring_prefix s q : substring 0 (String.length s) (s ++ q) = s.
Proof.
  induction s as [|c s IH]; cbn.
  - now destruct q.
  - now rewrite IH.
Qed.

Lemma substring_whole s : substring 0 (String.length s) s = s.
Proof. induction s as [|c s IH]; cbn; [reflexivity | now rewrite IH]. Qed.

Lemma length_app s q : String.length (s ++ q) = String.length s + String.length q.
Proof. induction s as [|c s IH]; cbn; [reflexivity | now rewrite IH]. Qed.

(** C8.  For every key the two request URLs are the fixed templates with
    the key spliced in as it is.  Nothing is encoded: each URL is longer
    than its template by the length of the key, the key is read back byte
    for byte from its place, and different keys give different URLs.
    Nothing is checked either: a [#] or [?] of the key is the first [#] or
    [?] of the URL, so that what follows it in the key, and for ViaCEP the
    [/json/] suffix with it, leaves the path of the URL. *)
Theorem urls_embed_key :
  forall cep,
    brasilAPI cep = ("https://brasilapi.com.br/api/cep/v1/" ++ cep)%string
    /\ viaCEP cep = ("http://viacep.com.br/ws/" ++ cep ++ "/json/")%string
    /\ String.length (brasilAPI cep) = 36 + String.length cep
    /\ String.length (viaCEP cep) = 30 + String.length cep
    /\ substring 36 (String.length cep) (brasilAPI cep) = cep
    /\ substring 24 (String.length cep) (viaCEP cep) = cep
    /\ (forall cep', brasilAPI cep = brasilAPI cep' \/ viaCEP cep = viaCEP cep' ->
                     cep = cep')
    /\ (forall sep, sep = "#"%char \/ sep = "?"%char ->
           cut sep (brasilAPI cep) = (brasilAPI (fst (cut sep cep)), snd (cut sep cep))
           /\ (hasChar sep cep = true ->
               cut sep (viaCEP cep)
               = (("http://viacep.com.br/ws/" ++ fst (cut sep cep))%string,
                  (snd (cut sep cep) ++ "/json/")%string))).
Proof.
  intros cep.
  assert (Hlb : forall k, String.length (brasilAPI k) = 36 + String.length k)
    by (intros k; unfold brasilAPI; now rewrite length_app).
  assert (Hlv : forall k, String.length (viaCEP k) = 30 + String.length k)
    by (intros k; unfold viaCEP; rewrite !length_app; cbn; lia).
  assert (Hsb : forall k, substring 36 (String.length k) (brasilAPI k) = k)
    by (intros k; unfold brasilAPI; cbn [append substring]; apply substring_whole).
  assert (Hsv : forall k, substring 24 (String.length k) (viaCEP k) = k)
    by (intros k; unfold viaCEP; cbn [append substring]; apply substring_prefix).
  split; [reflexivity|]. split; [reflexivity|].
  split; [apply Hlb|]. split; [apply Hlv|]. split; [apply Hsb|]. split; [apply Hsv|].
  split.
  - intros cep' [H|H].
    + assert (Hlen : String.length cep = String.length cep').
      { pose proof (Hlb cep) as H1. pose proof (Hlb cep') as H2. rewrite H in H1. lia. }
      rewrite <- (Hsb cep), <- (Hsb cep'), H, Hlen. reflexivity.
    + assert (Hlen : String.length cep = String.length cep').
      { pose proof (Hlv cep) as H1. pose proof (Hlv cep') as H2. rewrite H in H1. lia. }
      rewrite <- (Hsv cep), <- (Hsv cep'), H, Hlen. reflexivity.
  - intros sep Hsep. split.
    + unfold brasilAPI. apply cut_prefix. destruct Hsep as [-> | ->]; reflexivity.
    + intros Hin. unfold viaCEP.
      rewrite cut_prefix by (destruct Hsep as [-> | ->]; reflexivity).
      rewrite cut_suffix by (destruct Hsep as [-> | ->]; reflexivity).
      now rewrite Hin.
Qed.

(** C10.  Without a command-line argument the key is 01153000; with
    arguments it is the first one; and the run is the run for that key: both
    goroutines are started on the URLs of the one key. *)
Theorem default_key :
  cepOf [] = "01153000"
  /\ (forall prog, cepOf [prog] = "01153000")
  /\ (forall prog arg rest, cepOf (prog :: arg :: rest) = arg)
  /\ (forall prog net, main [prog] net = main [prog; "01153000"] net)
  /\ (forall prog arg rest net, main (prog :: arg :: rest) net = main [prog; arg] net)
  /\ (forall Args net,
         main Args net
         = let ctx := WithTimeout 0 timeout in
           let gs := [fetchAddress ctx net (brasilAPI (cepOf Args))
                                   brasilAPIResult brasilAPIErr true;
                      fetchAddress ctx net (viaCEP (cepOf Args))
                                   viaCEPResult viaCEPErr false] in
           if existsb panics gs then [RuntimePanic]
           else map Stdout (select gs (clauses ctx))).
Proof. repeat split. Qed.

(** ** Keys that do not make a URL *)

(** C7 (the defect).  With the key [%] neither request can be built: the
    error of [NewRequestWithContext] is dropped, [client.Do] dereferences
    the nil request, and the run ends in a runtime panic whatever the
    providers would have done. *)
Theorem main_panics_on_bad_escape :
  forall prog net, main [prog; "%"] net = [RuntimePanic].
Proof. reflexivity. Qed.

(** The same happens with a control byte in the key: a tab. *)
Lemma main_panics_on_control_byte :
  forall prog net, main [prog; String (ascii_of_nat 9) "01153000"] net = [RuntimePanic].
Proof. reflexivity. Qed.

(** X1.  When both URLs parse, a run always ends, and it ends with one printed
    line: the timeout line, or the line of a message of one provider.  It
    never ends in a panic. *)
Theorem main_prints_one_line :
  forall Args net,
    url_Parse (brasilAPI (cepOf Args)) <> None ->
    url_Parse (viaCEP (cepOf Args)) <> None ->
    main Args net <> []
    /\ forall o, In o (main Args net) ->
                 o = Stdout printTimeout
                 \/ (exists v, o = Stdout (textOf "Brasil API" v))
                 \/ (exists v, o = Stdout (textOf "ViaCEP" v)).
Proof.
  intros Args net Hub Huv.
  set (ctx := WithTimeout 0 timeout). set (cep := cepOf Args) in *.
  destruct (fetch_reports ctx net (brasilAPI cep) brasilAPIResult brasilAPIErr true Hub)
    as [vb Hrb].
  destruct (fetch_reports ctx net (viaCEP cep) viaCEPResult viaCEPErr false Huv)
    as [vv Hrv].
  destruct (reports_signal _ _ _ _ _ Hrb) as (_ & _ & Hpb).
  destruct (reports_signal _ _ _ _ _ Hrv) as (_ & _ & Hpv).
  rewrite (main_no_panic Args net Hpb Hpv). fold ctx cep.
  pose proof (fires_race ctx _ _ _ _ _ _ Hrb Hrv) as Hf.
  destruct (select_some _ (clauses ctx) (deadline ctx, printTimeout)
              ltac:(rewrite Hf; simpl; auto)) as [Hne Hin].
  split.
  - intros Hnil. apply map_eq_nil in Hnil. exact (Hne Hnil).
  - intros o Ho. apply in_map_iff in Ho as (txt & <- & Ho).
    destruct (Hin txt Ho) as [t Ht]. rewrite Hf in Ht.
    destruct Ht as [[= _ <-]|[[= _ <-]|[[= _ <-]|[]]]]; eauto.
Qed.

Lemma main_prints_one_line_witness :
  main ["main"; "01001000"] refusedThenFound <> [].
Proof.
  apply (main_prints_one_line ["main"; "01001000"] refusedThenFound);
    vm_compute; discriminate.
Defined.

(** * Further properties of the program *)

(** ** All the outcomes of a race *)

(** What a select may run: the clauses that can proceed at an instant at
    which no clause could proceed earlier. *)
Lemma select_iff gs cs txt :
  In txt (select gs cs)
  <-> exists t, In (t, txt) (fires gs cs)
                /\ Forall (fun ev => (t <= fst ev)%N) (fires gs cs).
Proof.
  unfold select. split.
  - destruct (earliest (fires gs cs)) as [m|] eqn:Hm; [|intros []].
    intros H. apply in_map_iff in H as ([t txt0] & Hsnd & H). cbn in Hsnd; subst txt0.
    apply filter_In in H as [Hin Heq]. cbn in Heq. apply N.eqb_eq in Heq; subst t.
    exists m. split; [exact Hin|]. now apply earliest_least.
  - intros (t & Hin & Hall).
    destruct (earliest_some _ _ Hin) as [m Hm]. rewrite Hm.
    destruct (earliest_least _ _ Hm) as [Hall' (txt' & Hin')].
    rewrite Forall_forall in Hall, Hall'.
    pose proof (Hall _ Hin') as H1. pose proof (Hall' _ Hin) as H2. cbn in H1, H2.
    assert (t = m) as -> by lia.
    apply in_map_iff. exists (m, txt). split; [reflexivity|].
    apply filter_In. split; [exact Hin|]. cbn. apply N.eqb_refl.
Qed.

Lemma timeout_is_not_a_message api v : printTimeout <> textOf api v.
Proof. destruct v; discriminate. Qed.

Lemma reportInstant_late ctx x :
  (deadline ctx <= reportInstant ctx x)%N
  <-> (forall t, latency x = Some t -> (deadline ctx <= t)%N).
Proof.
  unfold reportInstant. destruct (latency x) as [t|].
  - destruct (t <=? deadline ctx)%N eqn:Hle.
    + apply N.leb_le in Hle. split; [now intros H t' [= <-]|intros H; now apply H].
    + apply N.leb_gt in Hle. split; [intros _ t' [= <-]; lia | intros _; lia].
  - split; [intros _ t' H; discriminate H | intros _; lia].
Qed.

Lemma reportInstant_early ctx x t :
  reportInstant ctx x = t -> (t <= deadline ctx)%N -> latency x = Some t.
Proof.
  unfold reportInstant. destruct (latency x) as [t'|].
  - destruct (t' <=? deadline ctx)%N; [now intros ->|intros <-; lia].
  - intros <-; lia.
Qed.

Section Outcomes.
Variables (Args : list string) (net : Network).

Let ctx := WithTimeout 0 timeout.
Let cep := cepOf Args.
Let tB := reportInstant ctx (net (brasilAPI cep)).
Let tV := reportInstant ctx (net (viaCEP cep)).

(** The events of a race in which both requests were built. *)
Lemma main_events :
  url_Parse (brasilAPI cep) <> None -> url_Parse (viaCEP cep) <> None ->
  exists vb vv,
    reports brasilAPIResult brasilAPIErr tB vb
            (fetchAddress ctx net (brasilAPI cep) brasilAPIResult brasilAPIErr true)
    /\ reports viaCEPResult viaCEPErr tV vv
               (fetchAddress ctx net (viaCEP cep) viaCEPResult viaCEPErr false)
    /\ forall o,
         In o (main Args net)
         <-> exists t txt,
               o = Stdout txt
               /\ In (t, txt) [(tB, textOf "Brasil API" vb); (tV, textOf "ViaCEP" vv);
                               (deadline ctx, printTimeout)]
               /\ (t <= tB)%N /\ (t <= tV)%N /\ (t <= deadline ctx)%N.
Proof.
  intros Hub Huv.
  destruct (fetch_reports ctx net (brasilAPI cep) brasilAPIResult brasilAPIErr true Hub)
    as [vb Hrb].
  destruct (fetch_reports ctx net (viaCEP cep) viaCEPResult viaCEPErr false Huv)
    as [vv Hrv].
  exists vb, vv. split; [exact Hrb|]. split; [exact Hrv|].
  destruct (reports_signal _ _ _ _ _ Hrb) as (_ & _ & Hpb).
  destruct (reports_signal _ _ _ _ _ Hrv) as (_ & _ & Hpv).
  rewrite (main_no_panic Args net Hpb Hpv). fold ctx cep.
  pose proof (fires_race ctx _ _ _ _ _ _ Hrb Hrv) as Hf. fold tB tV in Hf.
  intros o. rewrite in_map_iff. split.
  - intros (txt & <- & Hin). apply select_iff in Hin as (t & Hin & Hall).
    rewrite Hf in Hin, Hall. exists t, txt. split; [reflexivity|]. split; [exact Hin|].
    inversion Hall as [|? ? H1 Hall1]; subst.
    inversion Hall1 as [|? ? H2 Hall2]; subst.
    inversion Hall2 as [|? ? H3 _]; subst. cbn in H1, H2, H3. auto.
  - intros (t & txt & -> & Hin & H1 & H2 & H3). exists txt. split; [reflexivity|].
    apply select_iff. exists t. rewrite Hf. split; [exact Hin|].
    repeat constructor; assumption.
Qed.
End Outcomes.

Lemma erro_is_not_endereco api e api' a : printErro api e <> printEndereco api' a.
Proof. discriminate. Qed.

Lemma endereco_viacep_is_not_brasil a a' :
  printEndereco "ViaCEP" a <> printEndereco "Brasil API" a'.
Proof. discriminate. Qed.

Lemma main_unparsed Args net :
  url_Parse (brasilAPI (cepOf Args)) = None \/ url_Parse (viaCEP (cepOf Args)) = None ->
  main Args net = [RuntimePanic].
Proof.
  intros H. apply main_panic. destruct H as [H|H]; [left|right]; now apply fetch_panics.
Qed.

(** X4.  When both requests are built, the timeout line is a possible outcome
    exactly when neither exchange is over before the deadline: a provider
    whose exchange ends strictly before one second rules the timeout out. *)
Theorem timeout_iff_nothing_before_deadline :
  forall Args net,
    url_Parse (brasilAPI (cepOf Args)) <> None ->
    url_Parse (viaCEP (cepOf Args)) <> None ->
    (In (Stdout printTimeout) (main Args net)
     <-> (forall t, latency (net (brasilAPI (cepOf Args))) = Some t -> (timeout <= t)%N)
         /\ (forall t, latency (net (viaCEP (cepOf Args))) = Some t -> (timeout <= t)%N)).
Proof.
  intros Args net Hub Huv.
  destruct (main_events Args net Hub Huv) as (vb & vv & _ & _ & Hmain).
  rewrite Hmain.
  assert (Hl : forall x,
             (forall t, latency x = Some t -> (timeout <= t)%N)
             <-> (deadline (WithTimeout 0 timeout)
                  <= reportInstant (WithTimeout 0 timeout) x)%N).
  { intros x. symmetry. exact (reportInstant_late (WithTimeout 0 timeout) x). }
  rewrite !Hl. split.
  - intros (t & txt & [= <-] & Hin & H1 & H2 & H3).
    destruct Hin as [[= _ Heq]|[[= _ Heq]|[[= <-]|[]]]].
    + symmetry in Heq. now apply timeout_is_not_a_message in Heq.
    + symmetry in Heq. now apply timeout_is_not_a_message in Heq.
    + now split.
  - intros [H1 H2]. exists (deadline (WithTimeout 0 timeout)), printTimeout.
    split; [reflexivity|]. split; [simpl; auto|]. repeat split; auto. lia.
Qed.

Lemma timeout_iff_nothing_before_deadline_witness :
  In (Stdout printTimeout) (main ["main"] tooSlow).
Proof.
  apply (proj2 (timeout_iff_nothing_before_deadline ["main"] tooSlow
                  ltac:(vm_compute; discriminate) ltac:(vm_compute; discriminate))).
  split.
  - intros t [= <-]. vm_compute. discriminate.
  - intros t H. discriminate H.
Defined.

(** X5.  The outcome of a run is determined as soon as no two of its events
    coincide: when no exchange ends exactly at the deadline, and the two
    exchanges do not end at one and the same instant within the deadline,
    the run has exactly one outcome. *)
Theorem one_outcome_without_ties :
  forall Args net,
    url_Parse (brasilAPI (cepOf Args)) <> None ->
    url_Parse (viaCEP (cepOf Args)) <> None ->
    (forall t, latency (net (brasilAPI (cepOf Args))) = Some t -> t <> timeout) ->
    (forall t, latency (net (viaCEP (cepOf Args))) = Some t -> t <> timeout) ->
    (forall t, latency (net (brasilAPI (cepOf Args))) = Some t ->
               latency (net (viaCEP (cepOf Args))) = Some t -> (timeout < t)%N) ->
    exists txt, main Args net = [Stdout txt].
Proof.
  intros Args net Hub Huv HB HV HBV.
  set (ctx := WithTimeout 0 timeout). set (cep := cepOf Args) in *.
  destruct (fetch_reports ctx net (brasilAPI cep) brasilAPIResult brasilAPIErr true Hub)
    as [vb Hrb].
  destruct (fetch_reports ctx net (viaCEP cep) viaCEPResult viaCEPErr false Huv)
    as [vv Hrv].
  destruct (reports_signal _ _ _ _ _ Hrb) as (_ & _ & Hpb).
  destruct (reports_signal _ _ _ _ _ Hrv) as (_ & _ & Hpv).
  rewrite (main_no_panic Args net Hpb Hpv). fold ctx cep.
  pose proof (fires_race ctx _ _ _ _ _ _ Hrb Hrv) as Hf.
  set (tB := reportInstant ctx (net (brasilAPI cep))) in *.
  set (tV := reportInstant ctx (net (viaCEP cep))) in *.
  assert (Hd : deadline ctx = timeout) by reflexivity.
  assert (HtB : tB <> deadline ctx).
  { intros E. apply (HB tB); [|congruence].
    apply (reportInstant_early ctx); [reflexivity|]. fold tB. lia. }
  assert (HtV : tV <> deadline ctx).
  { intros E. apply (HV tV); [|congruence].
    apply (reportInstant_early ctx); [reflexivity|]. fold tV. lia. }
  assert (Hne : tB <> tV \/ (deadline ctx < tB)%N).
  { destruct (N.le_gt_cases tB (deadline ctx)) as [Hle|Hgt]; [left|now right].
    intros E.
    assert (H1 : latency (net (brasilAPI cep)) = Some tB)
      by (apply (reportInstant_early ctx); [reflexivity|exact Hle]).
    assert (H2 : latency (net (viaCEP cep)) = Some tB).
    { apply (reportInstant_early ctx); [symmetry; exact E|exact Hle]. }
    specialize (HBV tB H1 H2). lia. }
  assert (Hcase : ((tB < tV)%N /\ (tB < deadline ctx)%N)
                  \/ ((tV < tB)%N /\ (tV < deadline ctx)%N)
                  \/ ((deadline ctx < tB)%N /\ (deadline ctx < tV)%N)) by lia.
  destruct Hcase as [[H1 H2]|[[H1 H2]|[H1 H2]]].
  - exists (textOf "Brasil API" vb).
    rewrite (select_first _ _ [] tB (textOf "Brasil API" vb) _ Hf);
      [reflexivity | constructor | repeat constructor; assumption].
  - exists (textOf "ViaCEP" vv).
    rewrite (select_first _ _ [_] tV (textOf "ViaCEP" vv) [_] Hf);
      [reflexivity | repeat constructor; assumption | repeat constructor; assumption].
  - exists printTimeout.
    rewrite (select_first _ _ [_; _] (deadline ctx) printTimeout [] Hf);
      [reflexivity | repeat constructor; assumption | constructor].
Qed.

Lemma one_outcome_without_ties_witness :
  exists txt, main ["main"; "01001000"] refusedThenFound = [Stdout txt].
Proof.
  apply (one_outcome_without_ties ["main"; "01001000"] refusedThenFound).
  - vm_compute; discriminate.
  - vm_compute; discriminate.
  - intros t [= <-]. vm_compute. discriminate.
  - intros t [= <-]. vm_compute. discriminate.
  - intros t [= <-] H. vm_compute in H. discriminate H.
Defined.

(** ** Where an Address line comes from *)

Lemma client_Do_response ctx net url t resp :
  client_Do net (NewRequestWithContext ctx "GET" url) = Returns t (inr resp) ->
  latency (net url) = Some t /\ (t <= deadline ctx)%N /\ reply (net url) = inr resp.
Proof.
  unfold NewRequestWithContext.
  destruct (url_Parse url) as [u|] eqn:Hu; [|discriminate].
  apply url_Parse_same in Hu as ->. cbn.
  destruct (latency (net url)) as [t'|]; [|discriminate].
  destruct (t' <=? deadline ctx)%N eqn:Hle; [|discriminate].
  intros [= -> H]. apply N.leb_le in Hle. auto.
Qed.

Lemma brasil_address_inv ctx net url result errChan t a :
  reports result errChan t (OfAddress a)
          (fetchAddress ctx net url result errChan true) ->
  exists resp raw,
    latency (net url) = Some t /\ (t <= deadline ctx)%N /\ reply (net url) = inr resp
    /\ DecodeBrasilAPI (Body resp) = inr raw /\ a = ofBrasilAPI raw.
Proof.
  intros Hr.
  destruct (client_Do net (NewRequestWithContext ctx "GET" url)) as [|t' [err|resp]] eqn:Hdo.
  - rewrite (fetch_nil _ _ _ _ _ _ Hdo) in Hr. inversion Hr.
  - rewrite (fetch_transport _ _ _ _ _ _ _ _ Hdo) in Hr. inversion Hr.
  - destruct (DecodeBrasilAPI (Body resp)) as [err|raw] eqn:Hd.
    + rewrite (fetch_brasil_err _ _ _ _ _ _ _ _ Hdo Hd) in Hr. inversion Hr.
    + rewrite (fetch_brasil_ok _ _ _ _ _ _ _ _ Hdo Hd) in Hr. inversion Hr; subst.
      destruct (client_Do_response _ _ _ _ _ Hdo) as (H1 & H2 & H3).
      exists resp, raw. auto.
Qed.

Lemma viacep_address_inv ctx net url result errChan t a :
  reports result errChan t (OfAddress a)
          (fetchAddress ctx net url result errChan false) ->
  exists resp raw,
    latency (net url) = Some t /\ (t <= deadline ctx)%N /\ reply (net url) = inr resp
    /\ DecodeViaCEP (Body resp) = inr raw /\ a = ofViaCEP raw.
Proof.
  intros Hr.
  destruct (client_Do net (NewRequestWithContext ctx "GET" url)) as [|t' [err|resp]] eqn:Hdo.
  - rewrite (fetch_nil _ _ _ _ _ _ Hdo) in Hr. inversion Hr.
  - rewrite (fetch_transport _ _ _ _ _ _ _ _ Hdo) in Hr. inversion Hr.
  - destruct (DecodeViaCEP (Body resp)) as [err|raw] eqn:Hd.
    + rewrite (fetch_viacep_err _ _ _ _ _ _ _ _ Hdo Hd) in Hr. inversion Hr.
    + rewrite (fetch_viacep_ok _ _ _ _ _ _ _ _ Hdo Hd) in Hr. inversion Hr; subst.
      destruct (client_Do_response _ _ _ _ _ Hdo) as (H1 & H2 & H3).
      exists resp, raw. auto.
Qed.

Lemma reportInstant_bound ctx x t t' :
  (t <= reportInstant ctx x)%N -> (t <= deadline ctx)%N ->
  latency x = Some t' -> (t <= t')%N.
Proof.
  unfold reportInstant. intros H Hd Hl. rewrite Hl in H.
  destruct (t' <=? deadline ctx)%N eqn:Hle; [exact H|]. apply N.leb_gt in Hle. lia.
Qed.

Lemma url_Parse_decide url : url_Parse url = None \/ url_Parse url <> None.
Proof. destruct (url_Parse url); [right; discriminate | now left]. Qed.

(** X6.  An Address line is never printed on credit.  When a run may print
    the Address line of a provider, the exchange with that provider ended
    within the deadline with a response whose body decodes under the schema
    of that provider, the line is the line of the Address mapped from it, and
    the exchange with the other provider did not end earlier. *)
Theorem address_line_is_earned :
  forall Args net a,
    (In (Stdout (printEndereco "Brasil API" a)) (main Args net) ->
     exists t resp raw,
       latency (net (brasilAPI (cepOf Args))) = Some t /\ (t <= timeout)%N
       /\ reply (net (brasilAPI (cepOf Args))) = inr resp
       /\ DecodeBrasilAPI (Body resp) = inr raw
       /\ printEndereco "Brasil API" a = printEndereco "Brasil API" (ofBrasilAPI raw)
       /\ (forall t', latency (net (viaCEP (cepOf Args))) = Some t' -> (t <= t')%N))
    /\ (In (Stdout (printEndereco "ViaCEP" a)) (main Args net) ->
        exists t resp raw,
          latency (net (viaCEP (cepOf Args))) = Some t /\ (t <= timeout)%N
          /\ reply (net (viaCEP (cepOf Args))) = inr resp
          /\ DecodeViaCEP (Body resp) = inr raw
          /\ printEndereco "ViaCEP" a = printEndereco "ViaCEP" (ofViaCEP raw)
          /\ (forall t', latency (net (brasilAPI (cepOf Args))) = Some t' -> (t <= t')%N)).
Proof.
  intros Args net a.
  destruct (url_Parse_decide (brasilAPI (cepOf Args))) as [Hub|Hub];
    [rewrite (main_unparsed Args net (or_introl Hub));
     split; intros [H|[]]; discriminate H|].
  destruct (url_Parse_decide (viaCEP (cepOf Args))) as [Huv|Huv];
    [rewrite (main_unparsed Args net (or_intror Huv));
     split; intros [H|[]]; discriminate H|].
  destruct (main_events Args net Hub Huv) as (vb & vv & Hrb & Hrv & Hmain).
  split; intros Hin; apply Hmain in Hin as (t & txt & [= <-] & Hev & H1 & H2 & H3).
  - destruct Hev as [Hev|[Hev|[Hev|[]]]]; apply pair_equal_spec in Hev as [Ht Heq].
    + subst t. destruct vb as [a'|e]; [|now apply erro_is_not_endereco in Heq].
      destruct (brasil_address_inv _ _ _ _ _ _ _ Hrb) as (resp & raw & L1 & L2 & L3 & L4 & ->).
      eexists _, resp, raw. repeat split; eauto.
      intros t' Ht'. exact (reportInstant_bound (WithTimeout 0 timeout) _ _ _ H2 H3 Ht').
    + destruct vv as [a'|e];
        [now apply endereco_viacep_is_not_brasil in Heq
        |now apply erro_is_not_endereco in Heq].
    + now apply (timeout_is_not_a_message "Brasil API" (OfAddress a)) in Heq.
  - destruct Hev as [Hev|[Hev|[Hev|[]]]]; apply pair_equal_spec in Hev as [Ht Heq].
    + destruct vb as [a'|e];
        [symmetry in Heq; now apply endereco_viacep_is_not_brasil in Heq
        |now apply erro_is_not_endereco in Heq].
    + subst t. destruct vv as [a'|e]; [|now apply erro_is_not_endereco in Heq].
      destruct (viacep_address_inv _ _ _ _ _ _ _ Hrv) as (resp & raw & L1 & L2 & L3 & L4 & ->).
      eexists _, resp, raw. repeat split; eauto.
      intros t' Ht'. exact (reportInstant_bound (WithTimeout 0 timeout) _ _ _ H1 H3 Ht').
    + now apply (timeout_is_not_a_message "ViaCEP" (OfAddress a)) in Heq.
Qed.

(** BrasilAPI answers after 10 ms; ViaCEP is refused after half a second. *)
Definition foundThenRefused : Network :=
  fun u =>
    if u =? brasilAPI "01001000"
    then answers (millis 10) 200 craftedBrasil
    else fails (millis 500) (TransportError "dial tcp: connection refused").

Lemma address_line_is_earned_witness :
  exists t resp raw,
    latency (foundThenRefused (brasilAPI (cepOf ["main"; "01001000"]))) = Some t
    /\ (t <= timeout)%N
    /\ reply (foundThenRefused (brasilAPI (cepOf ["main"; "01001000"]))) = inr resp
    /\ DecodeBrasilAPI (Body resp) = inr raw
    /\ printEndereco "Brasil API" craftedAddress
       = printEndereco "Brasil API" (ofBrasilAPI raw)
    /\ (forall t', latency (foundThenRefused (viaCEP (cepOf ["main"; "01001000"]))) = Some t' ->
                   (t <= t')%N).
Proof.
  apply (proj1 (address_line_is_earned ["main"; "01001000"] foundThenRefused craftedAddress)).
  left. reflexivity.
Defined.

(** ** The keys that make both URLs *)

(** The conditions of [url.Parse] read on the key alone. *)
Definition validKey (key : string) : bool :=
  let (u, frag) := cut "#" key in
  (negb (stringContainsCTLByte u) && escapes_ok (fst (cut "?" u)) && escapes_ok frag)%bool.

Lemma ctl_app a b :
  stringContainsCTLByte (a ++ b)
  = (stringContainsCTLByte a || stringContainsCTLByte b)%bool.
Proof.
  unfold stringContainsCTLByte. induction a as [|c a IH]; cbn; [reflexivity|].
  now rewrite IH, orb_assoc.
Qed.

Lemma escapes_plain s : hasChar "%" s = false -> escapes_ok s = true.
Proof.
  unfold hasChar. induction s as [|c s IH]; cbn; [reflexivity|].
  intros H. apply orb_false_iff in H as [-> H]. now apply IH.
Qed.

Lemma escapes_prefix p x : hasChar "%" p = false -> escapes_ok (p ++ x) = escapes_ok x.
Proof.
  unfold hasChar. induction p as [|c p IH]; cbn; [reflexivity|].
  intros H. apply orb_false_iff in H as [-> H]. now apply IH.
Qed.

(** Text that starts with a byte that is no hexadecimal digit and holds no
    [%] neither completes nor breaks an escape of what stands before it. *)
Lemma escapes_suffix c q :
  ishex c = false -> hasChar "%" (String c q) = false ->
  forall n x, String.length x <= n -> escapes_ok (x ++ String c q) = escapes_ok x.
Proof.
  intros Hc Hq. induction n as [|n IH]; intros x Hlen.
  - destruct x; [|cbn in Hlen; lia]. cbn [append]. now apply escapes_plain.
  - destruct x as [|a x]; [cbn [append]; now apply escapes_plain|].
    cbn [append escapes_ok]. destruct (Ascii.eqb a "%").
    + destruct x as [|h1 [|h2 x]]; cbn [append].
      * destruct q; [reflexivity|]. now rewrite Hc.
      * rewrite Hc. now rewrite andb_false_r.
      * rewrite IH; [reflexivity|]. cbn in Hlen. lia.
    + apply IH. cbn in Hlen. lia.
Qed.

Lemma validKey_json key : validKey (key ++ "/json/") = validKey key.
Proof.
  assert (Hs : forall x, escapes_ok (x ++ "/json/") = escapes_ok x).
  { intros x. apply (escapes_suffix "/" "json/" eq_refl eq_refl (String.length x)). lia. }
  unfold validKey. rewrite (cut_suffix "#" key "/json/" eq_refl).
  destruct (hasChar "#" key) eqn:Hh.
  - destruct (cut "#" key) as [u frag]; cbn [fst snd]. now rewrite Hs.
  - rewrite (cut_none _ _ Hh). rewrite ctl_app, orb_false_r.
    rewrite (cut_suffix "?" key "/json/" eq_refl).
    destruct (hasChar "?" key) eqn:Hq; cbn [fst].
    + reflexivity.
    + rewrite (cut_none _ _ Hq). cbn [fst]. now rewrite Hs.
Qed.

Lemma url_Parse_prefix p key :
  hasChar "#" p = false -> hasChar "?" p = false -> hasChar "%" p = false ->
  stringContainsCTLByte p = false ->
  url_Parse (p ++ key)
  = if validKey key then Some {| source := (p ++ key)%string |} else None.
Proof.
  intros H1 H2 H3 H4. unfold url_Parse, validKey.
  rewrite (cut_prefix "#" p key H1).
  destruct (cut "#" key) as [u frag]; cbn [fst snd].
  rewrite ctl_app, H4; cbn [orb].
  destruct (stringContainsCTLByte u); cbn [negb andb]; [reflexivity|].
  rewrite (cut_prefix "?" p u H2).
  destruct (cut "?" u) as [rest q]; cbn [fst snd].
  now rewrite (escapes_prefix p rest H3).
Qed.

Lemma url_Parse_brasilAPI key :
  url_Parse (brasilAPI key)
  = if validKey key then Some {| source := brasilAPI key |} else None.
Proof. unfold brasilAPI. now apply url_Parse_prefix. Qed.

Lemma url_Parse_viaCEP key :
  url_Parse (viaCEP key)
  = if validKey key then Some {| source := viaCEP key |} else None.
Proof.
  unfold viaCEP. rewrite url_Parse_prefix by reflexivity. now rewrite validKey_json.
Qed.

(** X2.  The keys on which the program crashes are exactly those with an
    ASCII control byte before the first [#], or with a [%] that is not
    followed by two hexadecimal digits in the part before the first [?] or
    after the first [#]: for such a key every run ends in the runtime panic,
    whatever the network does, and for every other key no run does.  The
    two URLs of a key parse together or fail together. *)
Theorem main_panics_iff_key_invalid :
  forall Args net,
    (main Args net = [RuntimePanic] <-> validKey (cepOf Args) = false)
    /\ (In RuntimePanic (main Args net) <-> validKey (cepOf Args) = false)
    /\ (url_Parse (brasilAPI (cepOf Args)) = None
        <-> url_Parse (viaCEP (cepOf Args)) = None).
Proof.
  intros Args net.
  pose proof (url_Parse_brasilAPI (cepOf Args)) as Hb.
  pose proof (url_Parse_viaCEP (cepOf Args)) as Hv.
  destruct (validKey (cepOf Args)) eqn:Hk.
  - assert (Hub : url_Parse (brasilAPI (cepOf Args)) <> None) by (rewrite Hb; discriminate).
    assert (Huv : url_Parse (viaCEP (cepOf Args)) <> None) by (rewrite Hv; discriminate).
    destruct (main_events Args net Hub Huv) as (vb & vv & _ & _ & Hmain).
    assert (Hno : ~ In RuntimePanic (main Args net)).
    { intros Hin. apply Hmain in Hin as (t & txt & Ho & _). discriminate Ho. }
    split; [|split]; split; intros H; try discriminate H; try congruence.
    exfalso. apply Hno. rewrite H. now left.
  - pose proof (main_unparsed Args net (or_introl Hb)) as Hm.
    repeat split; auto.
    rewrite Hm. now left.
Qed.

(** ** The fastest provider decides *)

(** What a goroutine says about the end of its exchange: the error of the
    round trip, the error of the decoder, or the mapped Address. *)
Definition verdict (isBrasilAPI : bool) (r : error + Response) : message :=
  match r with
  | inl err => OfError err
  | inr resp =>
      if isBrasilAPI then
        match DecodeBrasilAPI (Body resp) with
        | inl err => OfError err
        | inr raw => OfAddress (ofBrasilAPI raw)
        end
      else
        match DecodeViaCEP (Body resp) with
        | inl err => OfError err
        | inr raw => OfAddress (ofViaCEP raw)
        end
  end.

Lemma fetch_verdict ctx net url result errChan isBrasilAPI t :
  url_Parse url <> None -> latency (net url) = Some t -> (t <= deadline ctx)%N ->
  reports result errChan t (verdict isBrasilAPI (reply (net url)))
          (fetchAddress ctx net url result errChan isBrasilAPI).
Proof.
  intros Hu Hl Ht.
  assert (Hdo : client_Do net (NewRequestWithContext ctx "GET" url)
                = Returns t (reply (net url))).
  { unfold NewRequestWithContext. destruct (url_Parse url) as [u|] eqn:Hp; [|congruence].
    apply url_Parse_same in Hp as ->. cbn. rewrite Hl.
    apply N.leb_le in Ht. now rewrite Ht. }
  destruct (reply (net url)) as [err|resp]; cbn [verdict].
  - rewrite (fetch_transport _ _ _ _ _ _ _ _ Hdo). constructor.
  - destruct isBrasilAPI.
    + destruct (DecodeBrasilAPI (Body resp)) as [err|raw] eqn:Hd.
      * rewrite (fetch_brasil_err _ _ _ _ _ _ _ _ Hdo Hd). constructor.
      * rewrite (fetch_brasil_ok _ _ _ _ _ _ _ _ Hdo Hd). constructor.
    + destruct (DecodeViaCEP (Body resp)) as [err|raw] eqn:Hd.
      * rewrite (fetch_viacep_err _ _ _ _ _ _ _ _ Hdo Hd). constructor.
      * rewrite (fetch_viacep_ok _ _ _ _ _ _ _ _ Hdo Hd). constructor.
Qed.

(** A goroutine whose exchange is not over by [t] has reported nothing by
    [t], when [t] is before the deadline. *)
Lemma slower_exchange_pending ctx net url result errChan isBrasilAPI t :
  url_Parse url <> None -> (t < deadline ctx)%N ->
  (forall t', latency (net url) = Some t' -> (t < t')%N) ->
  pendingAfter t (fetchAddress ctx net url result errChan isBrasilAPI).
Proof.
  intros Hu Ht Hlate.
  destruct (fetch_reports ctx net url result errChan isBrasilAPI Hu) as [v Hr].
  destruct (reports_signal _ _ _ _ _ Hr) as (_ & (ch & Hf) & Hp).
  split; [exact Hp|]. rewrite Hf. constructor; [|constructor].
  cbn [since sendOf]. unfold reportInstant.
  destruct (latency (net url)) as [t'|]; [|lia].
  specialize (Hlate t' eq_refl). destruct (t' <=? deadline ctx)%N; lia.
Qed.

Lemma fastest_brasil Args net t :
  validKey (cepOf Args) = true ->
  latency (net (brasilAPI (cepOf Args))) = Some t -> (t < timeout)%N ->
  (forall t', latency (net (viaCEP (cepOf Args))) = Some t' -> (t < t')%N) ->
  main Args net
  = [Stdout (textOf "Brasil API" (verdict true (reply (net (brasilAPI (cepOf Args))))))].
Proof.
  intros Hk Hl Ht Hv.
  assert (Hub : url_Parse (brasilAPI (cepOf Args)) <> None)
    by (rewrite url_Parse_brasilAPI, Hk; discriminate).
  assert (Huv : url_Parse (viaCEP (cepOf Args)) <> None)
    by (rewrite url_Parse_viaCEP, Hk; discriminate).
  apply race_brasil_first with (t := t); [exact Ht | |].
  - refine (proj1 (reports_signal brasilAPIResult brasilAPIErr _ _ _
                      (fetch_verdict _ net _ _ _ true t Hub Hl _))).
    apply N.lt_le_incl. exact Ht.
  - now apply slower_exchange_pending.
Qed.

Lemma fastest_viacep Args net t :
  validKey (cepOf Args) = true ->
  latency (net (viaCEP (cepOf Args))) = Some t -> (t < timeout)%N ->
  (forall t', latency (net (brasilAPI (cepOf Args))) = Some t' -> (t < t')%N) ->
  main Args net
  = [Stdout (textOf "ViaCEP" (verdict false (reply (net (viaCEP (cepOf Args))))))].
Proof.
  intros Hk Hl Ht Hv.
  assert (Hub : url_Parse (brasilAPI (cepOf Args)) <> None)
    by (rewrite url_Parse_brasilAPI, Hk; discriminate).
  assert (Huv : url_Parse (viaCEP (cepOf Args)) <> None)
    by (rewrite url_Parse_viaCEP, Hk; discriminate).
  apply race_via_first with (t := t); [exact Ht | |].
  - refine (proj1 (reports_signal viaCEPResult viaCEPErr _ _ _
                      (fetch_verdict _ net _ _ _ false t Huv Hl _))).
    apply N.lt_le_incl. exact Ht.
  - now apply slower_exchange_pending.
Qed.

(** X7.  From the network to the printed line: for a key that makes both
    URLs, the provider whose exchange ends first, before the deadline and
    strictly before the other's, decides the run alone.  The line is the
    Address line of that provider when the round trip gave a response whose
    body decodes, and its error line, with the error of the round trip or of
    the decoder, otherwise; what the slower provider would have answered
    plays no part. *)
Theorem fastest_provider_decides :
  forall Args net t,
    validKey (cepOf Args) = true ->
    (t < timeout)%N ->
    (latency (net (brasilAPI (cepOf Args))) = Some t ->
     (forall t', latency (net (viaCEP (cepOf Args))) = Some t' -> (t < t')%N) ->
     main Args net
     = [Stdout (textOf "Brasil API" (verdict true (reply (net (brasilAPI (cepOf Args))))))])
    /\ (latency (net (viaCEP (cepOf Args))) = Some t ->
        (forall t', latency (net (brasilAPI (cepOf Args))) = Some t' -> (t < t')%N) ->
        main Args net
        = [Stdout (textOf "ViaCEP" (verdict false (reply (net (viaCEP (cepOf Args))))))]).
Proof.
  intros Args net t Hk Ht. split; intros Hl Hother.
  - now apply fastest_brasil with (t := t).
  - now apply fastest_viacep with (t := t).
Qed.

Lemma fastest_provider_decides_witness :
  main ["main"; "01001000"] foundThenRefused
  = [Stdout (printEndereco "Brasil API" craftedAddress)].
Proof.
  apply (proj1 (fastest_provider_decides ["main"; "01001000"] foundThenRefused
                  (millis 10) eq_refl eq_refl)).
  - reflexivity.
  - intros t' [= <-]. reflexivity.
Defined.

Definition blankLine (api : string) : string :=
  ("Endereço (" ++ api ++ "): , ,  - " ++ nl)%string.

(** X8.  A response that carries none of the fields of the schema is not an
    error for the program.  When the response that [client.Do] returns for
    the fastest provider has as its body a JSON object none of whose
    members selects a field of the schema of that provider, the run prints
    the Address line of that provider with every field blank. *)
Theorem unmatched_object_prints_blank_address :
  forall Args net t resp ms,
    validKey (cepOf Args) = true ->
    (t < timeout)%N ->
    Body resp = JSONValue (JObject ms) ->
    (latency (net (brasilAPI (cepOf Args))) = Some t ->
     reply (net (brasilAPI (cepOf Args))) = inr resp ->
     mismatched BrasilAPIResponse.fields ms = true ->
     (forall t', latency (net (viaCEP (cepOf Args))) = Some t' -> (t < t')%N) ->
     main Args net = [Stdout (blankLine "Brasil API")])
    /\ (latency (net (viaCEP (cepOf Args))) = Some t ->
        reply (net (viaCEP (cepOf Args))) = inr resp ->
        mismatched ViaCEPResponse.fields ms = true ->
        (forall t', latency (net (brasilAPI (cepOf Args))) = Some t' -> (t < t')%N) ->
        main Args net = [Stdout (blankLine "ViaCEP")]).
Proof.
  intros Args net t resp ms Hk Ht Hb. split; intros Hl Hr Hm Hother.
  - rewrite (fastest_brasil Args net t Hk Hl Ht Hother).
    rewrite Hr. cbn [verdict]. rewrite Hb. unfold DecodeBrasilAPI.
    now rewrite Decode_mismatched.
  - rewrite (fastest_viacep Args net t Hk Hl Ht Hother).
    rewrite Hr. cbn [verdict]. rewrite Hb. unfold DecodeViaCEP.
    now rewrite Decode_mismatched.
Qed.

(** ViaCEP's answer for a postal code it does not know. *)
Definition viaCEPUnknown : Network :=
  fun u =>
    if u =? viaCEP "99999999"
    then answers (millis 40) 200 (JSONValue (JObject [("erro", JBool true)]))
    else silent.

Lemma unmatched_object_prints_blank_address_witness :
  main ["main"; "99999999"] viaCEPUnknown = [Stdout (blankLine "ViaCEP")].
Proof.
  apply (proj2 (unmatched_object_prints_blank_address
                  ["main"; "99999999"] viaCEPUnknown (millis 40)
                  {| StatusCode := 200;
                     Body := JSONValue (JObject [("erro", JBool true)]) |}
                  [("erro", JBool true)] eq_refl eq_refl eq_refl)).
  - reflexivity.
  - reflexivity.
  - reflexivity.
  - intros t' H. discriminate H.
Defined.

(** ** Ties *)

Lemma reportInstant_on_time ctx x t :
  latency x = Some t -> (t <= deadline ctx)%N -> reportInstant ctx x = t.
Proof.
  unfold reportInstant. intros -> H. apply N.leb_le in H. now rewrite H.
Qed.

Lemma reports_same result errChan t v t' v' g :
  reports result errChan t v g -> reports result errChan t' v' g -> v = v'.
Proof.
  intros H H'.
  destruct (reports_signal _ _ _ _ _ H) as (Hs & _).
  destruct (reports_signal _ _ _ _ _ H') as (Hs' & _).
  rewrite Hs in Hs'. now injection Hs'.
Qed.

(** X10.  When both exchanges end at one and the same instant before the
    deadline the run is not determined: the line of either provider is a
    possible outcome, and nothing else is; in particular not the timeout
    line. *)
Theorem tie_leaves_both_lines :
  forall Args net t,
    validKey (cepOf Args) = true ->
    latency (net (brasilAPI (cepOf Args))) = Some t ->
    latency (net (viaCEP (cepOf Args))) = Some t ->
    (t < timeout)%N ->
    forall o,
      In o (main Args net)
      <-> o = Stdout (textOf "Brasil API" (verdict true (reply (net (brasilAPI (cepOf Args))))))
          \/ o = Stdout (textOf "ViaCEP" (verdict false (reply (net (viaCEP (cepOf Args)))))).
Proof.
  intros Args net t Hk HlB HlV Ht o.
  assert (Hub : url_Parse (brasilAPI (cepOf Args)) <> None)
    by (rewrite url_Parse_brasilAPI, Hk; discriminate).
  assert (Huv : url_Parse (viaCEP (cepOf Args)) <> None)
    by (rewrite url_Parse_viaCEP, Hk; discriminate).
  assert (Hle : (t <= deadline (WithTimeout 0 timeout))%N)
    by (apply N.lt_le_incl; exact Ht).
  destruct (main_events Args net Hub Huv) as (vb & vv & Hrb & Hrv & Hmain).
  rewrite (reportInstant_on_time _ _ t HlB Hle) in Hrb, Hmain.
  rewrite (reportInstant_on_time _ _ t HlV Hle) in Hrv, Hmain.
  rewrite (reports_same _ _ _ _ _ _ _ Hrb
             (fetch_verdict _ net _ _ _ true t Hub HlB Hle)) in Hmain.
  rewrite (reports_same _ _ _ _ _ _ _ Hrv
             (fetch_verdict _ net _ _ _ false t Huv HlV Hle)) in Hmain.
  rewrite Hmain. split.
  - intros (t0 & txt & -> & Hev & H1 & _ & _).
    destruct Hev as [Hev|[Hev|[Hev|[]]]]; apply pair_equal_spec in Hev as [Ht0 <-].
    + now left.
    + now right.
    + exfalso. subst t0. change (deadline (WithTimeout 0 timeout)) with timeout in H1. lia.
  - intros [-> | ->]; exists t; eexists; (split; [reflexivity|]);
      (split; [simpl; auto|]); repeat split; try exact Hle; apply N.le_refl.
Qed.

(** Both providers answer after 20 ms. *)
Definition bothAtOnce : Network :=
  fun u =>
    if u =? brasilAPI "01001000"
    then answers (millis 20) 200 craftedBrasil
    else answers (millis 20) 200 (JSONValue (JObject craftedViaCEP)).

Lemma tie_leaves_both_lines_witness :
  In (Stdout (printEndereco "ViaCEP" (ofViaCEP
        (ViaCEPResponse.Build "01001-000" "Praça da Sé" "lado ímpar" "Sé"
                              "São Paulo" "SP" "3550308" "1004" "11" "7107"))))
     (main ["main"; "01001000"] bothAtOnce).
Proof.
  apply (proj2 (tie_leaves_both_lines ["main"; "01001000"] bothAtOnce (millis 20)
                  eq_refl eq_refl eq_refl eq_refl _)).
  right. reflexivity.
Defined.
